(** * bygis::Graph (Graph.hpp): a relationship container

    A shallow embedding of the class [bygis::Graph] and the proofs of the
    properties stated about it.

    - The table [std::map<int, std::map<int, std::map<std::string,
      std::pair<bool, float> > > >] is a three-level [gmap]; vertex ids
      ([int]) are integers of [Z] (no arithmetic is done on them, so every
      [int] is such an integer and nothing wraps).
    - [float] is IEEE 754 binary32, taken from the Standard Library's
      [SpecFloat] at precision 24 and maximal exponent 128.
    - [operator[]] on a [std::map] inserts a value-initialised element when
      the key is missing; every use of it in a mutation is written out as
      such ([index_v], [index_n], [index_r]).
    - Dereferencing an [end()] iterator is undefined behaviour; the two
      queries that can do it return an [option], [None] standing for it. *)

From Stdlib Require Import ZArith Floats.SpecFloat.
From stdpp Require Import gmap strings list fin_maps fin_sets.

Open Scope Z_scope.

(* ================================================================== *)
(** ** Numbers: binary32 *)
(* ================================================================== *)

Module F32.

Definition prec : Z := 24.
Definition emax : Z := 128.

Definition float : Type := spec_float.

(** A value a [float] variable can hold. *)
Definition valid (x : float) : bool := valid_binary prec emax x.

Definition finite (x : float) : bool :=
  match x with
  | S754_zero _ | S754_finite _ _ _ => true
  | _ => false
  end.

(** Conversion of an integer constant to [float] (exact for the small
    constants the code uses). *)
Definition of_Z (z : Z) : float := binary_normalize prec emax z 0 false.

Definition zero : float := S754_zero false.

Definition sub (x y : float) : float := SFsub prec emax x y.
Definition mul (x y : float) : float := SFmul prec emax x y.
Definition opp (x : float) : float := SFopp x.

(** [-1 * x], as [Graph::get] computes it. *)
Definition neg1_mul (x : float) : float := mul (of_Z (-1)) x.

(** Promotion of a [float] to [double] (binary64): exact. *)
Definition to_double (x : float) : spec_float :=
  match x with
  | S754_finite s m e => binary_round 53 1024 s m e
  | _ => x
  end.

(** The [double] literal [0.0000001], that is [0x1.ad7f29abcaf48p-24]. *)
Definition tolerance : spec_float :=
  S754_finite false 0x1ad7f29abcaf48 (-76).

(** [fabs(x - no_relationship) < 0.0000001]: the subtraction is done in
    [float] (round to nearest even), the comparison in [double]. A NaN is
    below nothing. *)
Definition is_no_relationship (nr x : float) : bool :=
  SFltb (to_double (SFabs (sub x nr))) tolerance.

(** [fabs(x - no_relationship) >= 0.0000001], computed the same way. *)
Definition differs (nr x : float) : bool :=
  SFleb tolerance (to_double (SFabs (sub x nr))).

End F32.

Abbreviation float := F32.float.

(* ================================================================== *)
(** ** The data model *)
(* ================================================================== *)

(** [std::pair<bool, float>]: the outward flag and the magnitude. *)
Abbreviation Rel := (bool * float)%type.
Abbreviation KeyMap := (gmap string (bool * float)).
Abbreviation NbrMap := (gmap Z (gmap string (bool * float))).
Abbreviation Table := (gmap Z (gmap Z (gmap string (bool * float)))).

Record Graph : Type := mkGraph {
  data : Table;
  directed : bool;
  no_relationship : float
}.

Definition set_data (g : Graph) (d : Table) : Graph :=
  mkGraph d (directed g) (no_relationship g).

(** [static const unsigned char UNDIRECTED = 0, FROM = 1, TO = 2]. *)
Inductive Dir : Type := UNDIRECTED | FROM | TO.

Definition Dir_eqb (a b : Dir) : bool :=
  match a, b with
  | UNDIRECTED, UNDIRECTED | FROM, FROM | TO, TO => true
  | _, _ => false
  end.

(** The value-initialised [std::pair<bool, float>]. *)
Definition Rel_default : Rel := (false, F32.zero).

(** *** Constructors and assignment *)

(** [Graph (bool dir = true, float x = 0)]. *)
Definition Graph_new (dir : bool) (x : float) : Graph := mkGraph ∅ dir x.

Definition Graph_default : Graph := Graph_new true (F32.of_Z 0).

(** [Graph (const Graph& g) : directed(g.directed) { data = g.data; }].
    The member [no_relationship] is not initialised: it holds whatever the
    storage of the new object held, [uninit]. *)
Definition Graph_copy (uninit : float) (g : Graph) : Graph :=
  mkGraph (data g) (directed g) uninit.

(** [operator=]: [directed] and [data] are assigned, [no_relationship] is
    not. When [this] is [g] itself the object is returned as it is, which
    the same expression gives. *)
Definition Graph_assign (this g : Graph) : Graph :=
  mkGraph (data g) (directed g) (no_relationship this).

(** *** Reading the table without changing it ([find]) *)

Definition entry (d : Table) (i j : Z) (key : string) : option Rel :=
  match d !! i with
  | None => None
  | Some V =>
      match V !! j with
      | None => None
      | Some N => N !! key
      end
  end.

(** *** [operator[]]: reading creates what is missing *)

(** The maps and the pair that [data[i]], [data[i][j]] and
    [data[i][j][key]] refer to. *)
Definition vtx (d : Table) (i : Z) : NbrMap := default ∅ (d !! i).
Definition nbr (d : Table) (i j : Z) : KeyMap := default ∅ (vtx d i !! j).
Definition rel (d : Table) (i j : Z) (key : string) : Rel :=
  default Rel_default (nbr d i j !! key).

(** The table after evaluating [data[i]], [data[i][j]], [data[i][j][key]]. *)
Definition index_v (i : Z) (d : Table) : Table := <[i := vtx d i]> d.
Definition index_n (i j : Z) (d : Table) : Table :=
  <[i := <[j := nbr d i j]> (vtx d i)]> d.
Definition index_r (i j : Z) (key : string) (d : Table) : Table :=
  <[i := <[j := <[key := rel d i j key]> (nbr d i j)]> (vtx d i)]> d.

(** [data[i][j][key] = R]. *)
Definition assign_r (i j : Z) (key : string) (R : Rel) (d : Table) : Table :=
  <[i := <[j := <[key := R]> (nbr d i j)]> (vtx d i)]> d.
(** [data[i][j][key].first = b] and [data[i][j][key].second = x]. *)
Definition set_first (i j : Z) (key : string) (b : bool) (d : Table) : Table :=
  assign_r i j key (b, snd (rel d i j key)) d.
Definition set_second (i j : Z) (key : string) (x : float) (d : Table) : Table :=
  assign_r i j key (fst (rel d i j key), x) d.
(** [data[i][j].erase(key)], [data[i].erase(j)], [data.erase(i)]. *)
Definition erase_r (i j : Z) (key : string) (d : Table) : Table :=
  <[i := <[j := delete key (nbr d i j)]> (vtx d i)]> d.
Definition erase_n (i j : Z) (d : Table) : Table :=
  <[i := delete j (vtx d i)]> d.
Definition erase_v (i : Z) (d : Table) : Table := delete i d.

(** [if ( data[i][j].size() == 0 ) data[i].erase(j);] *)
Definition prune_n (i j : Z) (d : Table) : Table :=
  let d' := index_n i j d in
  if (size (nbr d' i j) =? 0)%nat then erase_n i j d' else d'.
(** [if ( data[i].size() == 0 ) data.erase(i);] *)
Definition prune_v (i : Z) (d : Table) : Table :=
  let d' := index_v i d in
  if (size (vtx d' i) =? 0)%nat then erase_v i d' else d'.

(** The four closing statements of [clear_dir(i,j)] and
    [clear(i,j,key,undir)]. *)
Definition prune (i j : Z) (d : Table) : Table :=
  prune_v j (prune_v i (prune_n j i (prune_n i j d))).

(* ================================================================== *)
(** ** Queries *)
(* ================================================================== *)

Definition size_ (g : Graph) : nat := size (data g).

Definition vertices (g : Graph) : gset Z := dom (data g).

(** The test of the inner loop of the private [nbrs], for the pair [R]
    found at [(i, j, k)], once [!limit_key || k == key] holds. With [TO]
    and an outward [R] it reads
    [data.find(j)->second.find(i)->second.find(k)->second.first] and no
    [find] is compared with [end()]. *)
Definition nbrs_test (d : Table) (i j : Z) (k : string) (R : Rel) (dir : Dir)
  : option bool :=
  if Dir_eqb dir UNDIRECTED then Some true
  else if Dir_eqb dir FROM && fst R then Some true
  else if Dir_eqb dir TO then
    if negb (fst R) then Some true
    else
      match d !! j with
      | None => None
      | Some Vj =>
          match Vj !! i with
          | None => None
          | Some Nji =>
              match Nji !! k with
              | None => None
              | Some R' => Some (fst R')
              end
          end
      end
  else Some false.

(** The private [nbrs (i, dir, limit_key, key)]. *)
Definition nbrs (g : Graph) (i : Z) (dir : Dir) (limit_key : bool)
    (key : string) : option (gset Z) :=
  match data g !! i with
  | None => Some ∅
  | Some V =>
      map_fold (fun (j : Z) (N : KeyMap) (acc : option (gset Z)) =>
        if limit_key && bool_decide (N !! key = None) then acc
        else
          map_fold (fun (k : string) (R : Rel) (acc' : option (gset Z)) =>
            match acc' with
            | None => None
            | Some out =>
                if negb limit_key || bool_decide (k = key) then
                  match nbrs_test (data g) i j k R dir with
                  | None => None
                  | Some true => Some ({[ j ]} ∪ out)
                  | Some false => Some out
                  end
                else Some out
            end) acc N) (Some ∅) V
  end.

Definition nbrs_key (g : Graph) (i : Z) (key : string) :=
  nbrs g i UNDIRECTED true key.
Definition nbrs_all (g : Graph) (i : Z) := nbrs g i UNDIRECTED false "".
Definition nbrs_to_key (g : Graph) (i : Z) (key : string) := nbrs g i TO true key.
Definition nbrs_to (g : Graph) (i : Z) := nbrs g i TO false "".
Definition nbrs_from_key (g : Graph) (i : Z) (key : string) :=
  nbrs g i FROM true key.
Definition nbrs_from (g : Graph) (i : Z) := nbrs g i FROM false "".

(** The keys of one neighbour map, and of all neighbour maps of a vertex. *)
Definition keys_of_vertex (V : NbrMap) : gset string :=
  map_fold (fun (_ : Z) (N : KeyMap) (out : gset string) => dom N ∪ out) ∅ V.

(** [keys ()]. *)
Definition keys (g : Graph) : gset string :=
  map_fold (fun (_ : Z) (V : NbrMap) (out : gset string) =>
              keys_of_vertex V ∪ out) ∅ (data g).

(** [keys (int i)]: [it = data.find(i)] is dereferenced at once. *)
Definition keys_v (g : Graph) (i : Z) : option (gset string) :=
  match data g !! i with
  | None => None
  | Some V => Some (keys_of_vertex V)
  end.

(** [keys (int i, int j)]. *)
Definition keys_vv (g : Graph) (i j : Z) : gset string :=
  match data g !! i with
  | None => ∅
  | Some V =>
      match V !! j with
      | None => ∅
      | Some N => dom N
      end
  end.

(** [contains (i, j, key, undir)]. *)
Definition contains_key (g : Graph) (i j : Z) (key : string) (undir : bool)
  : bool :=
  match data g !! i with
  | None => false
  | Some V =>
      match V !! j with
      | None => false
      | Some N =>
          match N !! key with
          | None => false
          | Some R => undir || fst R
          end
      end
  end.

Definition contains_dir_key (g : Graph) (i j : Z) (key : string) : bool :=
  contains_key g i j key false.
Definition contains_undir_key (g : Graph) (i j : Z) (key : string) : bool :=
  contains_key g i j key true.
(** [contains (i, j, key)]. *)
Definition contains (g : Graph) (i j : Z) (key : string) : bool :=
  contains_key g i j key (negb (directed g)).

(** [for ( ; !flag && kt != N.end(); ++kt ) flag = kt->second.first;] *)
Definition any_outward (N : KeyMap) : bool :=
  bool_decide (map_Exists (fun (_ : string) (R : Rel) => fst R = true) N).

(** [contains_dir (i, j)], [contains_undir (i, j)], [contains (i, j)]. *)
Definition contains_dir_vv (g : Graph) (i j : Z) : bool :=
  match data g !! i with
  | None => false
  | Some V =>
      match V !! j with
      | None => false
      | Some N => any_outward N
      end
  end.

Definition contains_undir_vv (g : Graph) (i j : Z) : bool :=
  match data g !! i with
  | None => false
  | Some V =>
      match V !! j with
      | None => false
      | Some N => (0 <? size N)%nat
      end
  end.

Definition contains_vv (g : Graph) (i j : Z) : bool :=
  if directed g then contains_dir_vv g i j else contains_undir_vv g i j.

(** [contains_dir (i)], [contains_undir (i)], [contains (i)]. *)
Definition contains_dir_v (g : Graph) (i : Z) : bool :=
  match data g !! i with
  | None => false
  | Some V =>
      bool_decide (map_Exists (fun (_ : Z) (N : KeyMap) => any_outward N = true) V)
  end.

Definition contains_undir_v (g : Graph) (i : Z) : bool :=
  match data g !! i with
  | None => false
  | Some V => (0 <? size V)%nat
  end.

Definition contains_v (g : Graph) (i : Z) : bool :=
  if directed g then contains_dir_v g i else contains_undir_v g i.

(** [get (i, j, key)] and [get (i, j)]. *)
Definition get (g : Graph) (i j : Z) (key : string) : float :=
  match data g !! i with
  | None => no_relationship g
  | Some V =>
      match V !! j with
      | None => no_relationship g
      | Some N =>
          match N !! key with
          | None => no_relationship g
          | Some R => if negb (fst R) then F32.neg1_mul (snd R) else snd R
          end
      end
  end.

Definition get_vv (g : Graph) (i j : Z) : float := get g i j "".

(* ================================================================== *)
(** ** Mutations *)
(* ================================================================== *)

(** The private [update (i, j, key, outward, x)]; [data[i]] exists when
    [data[i].find(j)] is evaluated. *)
Definition update (i j : Z) (key : string) (outward : bool) (x : float)
    (d : Table) : Table :=
  let d1 := match d !! i with
            | None => <[i := ∅]> d
            | Some _ => d
            end in
  let d2 := match vtx d1 i !! j with
            | None => <[i := <[j := ∅]> (vtx d1 i)]> d1
            | Some _ => d1
            end in
  assign_r i j key (outward, x) d2.

(** [clear (i, j, key, undir)]. *)
Definition clear_key_undir (g : Graph) (i j : Z) (key : string) (undir : bool)
  : Graph :=
  if negb (contains_undir_key g i j key) then g
  else
    let d := data g in
    let d1 :=
      if undir then erase_r j i key (erase_r i j key d)
      else
        let da := index_r i j key d in
        if negb (fst (rel da i j key)) then da
        else
          let db := index_r j i key da in
          if negb (fst (rel db j i key)) then
            erase_r i j key (erase_r j i key db)
          else
            let dc := set_first i j key false db in
            set_second i j key (snd (rel dc j i key)) dc in
    set_data g (prune i j d1).

Definition clear_dir_key (g : Graph) (i j : Z) (key : string) : Graph :=
  clear_key_undir g i j key false.
Definition clear_undir_key (g : Graph) (i j : Z) (key : string) : Graph :=
  clear_key_undir g i j key true.
(** [clear (i, j, key)]. *)
Definition clear_key (g : Graph) (i j : Z) (key : string) : Graph :=
  clear_key_undir g i j key (negb (directed g)).

(** One turn of the loop of [clear_dir (i, j)], the iterator being at the
    key [k] of [data[i][j]]. *)
Definition clear_dir_step (i j : Z) (k : string) (d : Table) : Table :=
  match nbr d i j !! k with
  | None => d
  | Some R =>
      if negb (fst R) then d
      else
        let db := index_r j i k d in
        if negb (fst (rel db j i k)) then
          erase_r i j k (erase_r j i k db)
        else
          let dc := set_first i j k false db in
          set_second i j k (snd (rel dc j i k)) dc
  end.

(** [clear_dir (i, j)]: the loop visits the keys [data[i][j]] has when it
    starts (a turn erases no key of [data[i][j]] but its own). *)
Definition clear_dir_vv (g : Graph) (i j : Z) : Graph :=
  if negb (contains_vv g i j) then g
  else
    let d := data g in
    let d1 := map_fold (fun (k : string) (_ : Rel) (acc : Table) =>
                          clear_dir_step i j k acc) d (nbr d i j) in
    set_data g (prune i j d1).

(** [clear_undir (i, j)]. *)
Definition clear_undir_vv (g : Graph) (i j : Z) : Graph :=
  if negb (contains_undir_vv g i j) then g
  else
    let d1 := erase_n j i (erase_n i j (data g)) in
    set_data g (prune_v j (prune_v i d1)).

(** [clear (i, j)]. *)
Definition clear_vv (g : Graph) (i j : Z) : Graph :=
  if directed g then clear_dir_vv g i j else clear_undir_vv g i j.

(** [clear_dir (i, key)], [clear_undir (i, key)], [clear (i, key)]: the
    loops run over the set [nbrs] returned. A [std::set] is visited in
    ascending order and [set_fold] in an order of its own; the turns touch
    different pairs of places, and what is proved of the loops holds for
    every order. *)
Definition clear_dir_vk (g : Graph) (i : Z) (key : string) : Graph :=
  match nbrs_all g i with
  | None => g
  | Some N => set_fold (fun (n : Z) (acc : Graph) => clear_dir_key acc i n key) g N
  end.

Definition clear_undir_vk (g : Graph) (i : Z) (key : string) : Graph :=
  match nbrs g i UNDIRECTED true key with
  | None => g
  | Some N => set_fold (fun (n : Z) (acc : Graph) => clear_undir_key acc i n key) g N
  end.

Definition clear_vk (g : Graph) (i : Z) (key : string) : Graph :=
  if directed g then clear_dir_vk g i key else clear_undir_vk g i key.

(** One turn of the loop of [clear (i)], at the neighbour [n]. *)
Definition clear_v_step (i n : Z) (d : Table) : Table :=
  match d !! n with
  | None => d
  | Some _ => prune_v n (erase_n n i d)
  end.

(** [clear (i)]. *)
Definition clear_v (g : Graph) (i : Z) : Graph :=
  if negb (contains_undir_v g i) then g
  else
    match nbrs g i UNDIRECTED false "" with
    | None => g
    | Some N => set_data g (set_fold (clear_v_step i) (erase_v i (data g)) N)
    end.

(** [clear (key)]: each loop erases what matches and keeps the rest. *)
Definition clear_k_nbr (key : string) (N : KeyMap) : option KeyMap :=
  let N' := delete key N in
  if (size N' =? 0)%nat then None else Some N'.
Definition clear_k_vtx (key : string) (V : NbrMap) : option NbrMap :=
  let V' := omap (clear_k_nbr key) V in
  if (size V' =? 0)%nat then None else Some V'.
Definition clear_k (g : Graph) (key : string) : Graph :=
  set_data g (omap (clear_k_vtx key) (data g)).

(** [clear ()]. *)
Definition clear_all (g : Graph) : Graph := set_data g ∅.

(** [set (i, j, key, undir, x)]. *)
Definition set (g : Graph) (i j : Z) (key : string) (undir : bool) (x : float)
  : Graph :=
  if F32.is_no_relationship (no_relationship g) x then
    if undir then clear_undir_key g i j key else clear_dir_key g i j key
  else
    let d1 := update i j key true x (data g) in
    if undir then set_data g (update j i key true x d1)
    else if negb (contains (set_data g d1) j i key) then
      set_data g (update j i key false x d1)
    else
      let d2 := index_r j i key d1 in
      if negb (fst (rel d2 j i key)) then set_data g (update j i key false x d2)
      else set_data g d2.

Definition set_key (g : Graph) (i j : Z) (key : string) (x : float) : Graph :=
  set g i j key (negb (directed g)) x.
Definition set_dir (g : Graph) (i j : Z) (key : string) (x : float) : Graph :=
  set g i j key false x.
Definition set_undir (g : Graph) (i j : Z) (key : string) (x : float) : Graph :=
  set g i j key true x.
Definition set_vv (g : Graph) (i j : Z) (x : float) : Graph :=
  set g i j "" (negb (directed g)) x.
Definition set_dir_vv (g : Graph) (i j : Z) (x : float) : Graph :=
  set g i j "" false x.
Definition set_undir_vv (g : Graph) (i j : Z) (x : float) : Graph :=
  set g i j "" true x.

(** *** The public mutations as one type *)

Inductive Op : Type :=
| OSet (i j : Z) (key : string) (undir : bool) (x : float)
| OSetKey (i j : Z) (key : string) (x : float)
| OSetDir (i j : Z) (key : string) (x : float)
| OSetUndir (i j : Z) (key : string) (x : float)
| OSetVV (i j : Z) (x : float)
| OSetDirVV (i j : Z) (x : float)
| OSetUndirVV (i j : Z) (x : float)
| OClearDirVV (i j : Z)
| OClearUndirVV (i j : Z)
| OClearVV (i j : Z)
| OClearKeyUndir (i j : Z) (key : string) (undir : bool)
| OClearDirKey (i j : Z) (key : string)
| OClearUndirKey (i j : Z) (key : string)
| OClearKey (i j : Z) (key : string)
| OClearDirVK (i : Z) (key : string)
| OClearUndirVK (i : Z) (key : string)
| OClearVK (i : Z) (key : string)
| OClearV (i : Z)
| OClearK (key : string)
| OClearAll.

Definition exec (o : Op) (g : Graph) : Graph :=
  match o with
  | OSet i j key undir x => set g i j key undir x
  | OSetKey i j key x => set_key g i j key x
  | OSetDir i j key x => set_dir g i j key x
  | OSetUndir i j key x => set_undir g i j key x
  | OSetVV i j x => set_vv g i j x
  | OSetDirVV i j x => set_dir_vv g i j x
  | OSetUndirVV i j x => set_undir_vv g i j x
  | OClearDirVV i j => clear_dir_vv g i j
  | OClearUndirVV i j => clear_undir_vv g i j
  | OClearVV i j => clear_vv g i j
  | OClearKeyUndir i j key undir => clear_key_undir g i j key undir
  | OClearDirKey i j key => clear_dir_key g i j key
  | OClearUndirKey i j key => clear_undir_key g i j key
  | OClearKey i j key => clear_key g i j key
  | OClearDirVK i key => clear_dir_vk g i key
  | OClearUndirVK i key => clear_undir_vk g i key
  | OClearVK i key => clear_vk g i key
  | OClearV i => clear_v g i
  | OClearK key => clear_k g key
  | OClearAll => clear_all g
  end.

(** The calls of a sequence, the first of the list first. *)
Definition run (ops : list Op) (g : Graph) : Graph :=
  foldl (fun acc o => exec o acc) g ops.

(* ================================================================== *)
(** ** The invariants of the table *)
(* ================================================================== *)

(** Every entry with [outward = true] has an entry at the mirrored place.
    That entry is outward when the relationship is undirected (or runs
    both ways) and not outward when it runs one way. *)
Definition mirror_inv (d : Table) : Prop :=
  ∀ i j key m, entry d i j key = Some (true, m) →
    ∃ R, entry d j i key = Some R.

(** No map of the table is present and empty. *)
Definition no_empty (d : Table) : Prop :=
  (∀ i V, d !! i = Some V → V ≠ ∅) ∧
  (∀ i V j N, d !! i = Some V → V !! j = Some N → N ≠ ∅).

(** The two halves of [no_empty], place by place; [ne_off i j] is what
    holds between the statements of a [clear] on the pair [(i, j)], before
    its closing statements have run. *)
Definition vtx_ok (d : Table) (a : Z) : Prop :=
  ∀ V, d !! a = Some V → V ≠ ∅.
Definition nbr_ok (d : Table) (a b : Z) : Prop :=
  ∀ N, vtx d a !! b = Some N → N ≠ ∅.
Definition ne_off (i j : Z) (d : Table) : Prop :=
  (∀ a, a ≠ i → a ≠ j → vtx_ok d a) ∧
  (∀ a b, ¬ (a = i ∧ b = j) → ¬ (a = j ∧ b = i) → nbr_ok d a b).

(** [mirror_inv], as a test that can be run on a table. *)
Definition mirror_invb (d : Table) : bool :=
  bool_decide (map_Forall (λ (i : Z) (V : NbrMap),
    map_Forall (λ (j : Z) (N : KeyMap),
      map_Forall (λ (k : string) (R : Rel),
        R.1 = true → is_Some (entry d j i k)) N) V) d).

(** *** The tables of the examples *)

(** A relationship from 1 to 2 and another from 2 to 1, both outward. *)
Definition two_way : Graph :=
  set_dir (set_dir Graph_default 1 2 "w" (F32.of_Z 5)) 2 1 "w" (F32.of_Z 7).

(** A self-loop at the vertex 1, set by a directed write. *)
Definition self_loop : Graph := set_dir Graph_default 1 1 "" (F32.of_Z 5).

(** The scenario of two roads: 1 to 2 with 10 and 2 to 3 with 4. *)
Definition roads : Graph :=
  set_dir (set_dir Graph_default 1 2 "road" (F32.of_Z 10))
          2 3 "road" (F32.of_Z 4).

(** Relationships under the keys "a" and "b": 1 and 2 have both, 3 and 4
    have "a" only. *)
Definition two_keys : Graph :=
  set_undir (set_undir (set_undir Graph_default 1 2 "a" (F32.of_Z 1))
                       1 2 "b" (F32.of_Z 2))
            3 4 "a" (F32.of_Z 3).


(* ================================================================== *)
(** ** Further invariants of the table *)
(* ================================================================== *)

(** An entry is present at [(i, j, key)] only if one is at [(j, i, key)]. *)
Definition sym_inv (d : Table) : Prop :=
  ∀ i j key, is_Some (entry d i j key) → is_Some (entry d j i key).

(** Between two different vertices, an entry that is not outward mirrors an
    outward entry of the same magnitude. *)
Definition partner_inv (d : Table) : Prop :=
  ∀ i j key m, i ≠ j →
    entry d i j key = Some (false, m) → entry d j i key = Some (true, m).

(** The test of [nbrs] for each direction, where it is defined. *)
Definition dir_test (d : Table) (i : Z) (dir : Dir) (j : Z) (k : string)
    (R : Rel) : bool :=
  match dir with
  | UNDIRECTED => true
  | FROM => fst R
  | TO => negb (fst R) ||
          match entry d j i k with
          | Some R' => fst R'
          | None => false
          end
  end.

(** The graph a sequence of public [set] and [clear] calls builds. *)
Definition built (dir : bool) (x : float) (ops : list Op) : Graph :=
  run ops (Graph_new dir x).

(** [d'] has no entry that [d] has not, and every outward entry of [d'] is
    an entry of [d]. *)
Definition shrinks (d d' : Table) : Prop :=
  ∀ a b k (R : Rel), entry d' a b k = Some R →
    ∃ R0, entry d a b k = Some R0 ∧ (fst R = true → R0 = R).

(** The [clear] overloads among the public mutations. *)
Definition is_clear (o : Op) : bool :=
  match o with
  | OSet _ _ _ _ _ | OSetKey _ _ _ _ | OSetDir _ _ _ _ | OSetUndir _ _ _ _
  | OSetVV _ _ _ | OSetDirVV _ _ _ | OSetUndirVV _ _ _ => false
  | _ => true
  end.


(* ================================================================== *)
(** ** The mirror invariant with the magnitudes *)
(* ================================================================== *)

#[global] Instance spec_float_eq_dec : EqDecision spec_float.
Proof. solve_decision. Defined.

(** An outward entry and a mirrored entry that is not outward hold the
    same magnitude. *)
Definition mag_inv (d : Table) : Prop :=
  ∀ i j key m m', entry d i j key = Some (true, m) →
    entry d j i key = Some (false, m') → m' = m.

(** Every entry with [outward = true] has an entry at the mirrored place,
    and that entry, when it is not outward (the relationship runs one
    way), holds the same magnitude. Two outward entries hold each the
    magnitude of its own write. *)
Definition mirror_mag_inv (d : Table) : Prop :=
  ∀ i j key m, entry d i j key = Some (true, m) →
    ∃ R, entry d j i key = Some R ∧ (fst R = false → snd R = m).

(** The invariant that asks equal magnitudes of two outward entries: the
    mirror of an outward entry is outward with the same magnitude, or is not
    outward. *)
Definition mirror_equal_inv (d : Table) : Prop :=
  ∀ i j key m, entry d i j key = Some (true, m) →
    ∃ R, entry d j i key = Some R ∧ (fst R = true → snd R = m).

(** [mirror_mag_inv], as a test that can be run on a table. *)
Definition mirror_mag_ok (R : Rel) (e : option Rel) : bool :=
  match e with
  | Some R' => fst R' || bool_decide (snd R' = snd R)
  | None => false
  end.

Definition mirror_mag_invb (d : Table) : bool :=
  bool_decide (map_Forall (λ (i : Z) (V : NbrMap),
    map_Forall (λ (j : Z) (N : KeyMap),
      map_Forall (λ (k : string) (R : Rel),
        R.1 = true → mirror_mag_ok R (entry d j i k) = true) N) V) d).

(** A relationship from 1 to 2 only. *)
Definition one_way : Graph := set_dir Graph_default 1 2 "w" (F32.of_Z 5).




(* ================================================================== *)
(** ** The table primitives, seen through [entry] *)
(* ================================================================== *)

Ltac simpl_graph :=
  cbn [data directed no_relationship set_data fst snd negb orb andb
       default from_option id].

Ltac decide_cases :=
  repeat case_decide; destruct_and?; simplify_eq/=;
  try done; try (exfalso; intuition congruence).

Section TableLemmas.
Implicit Types (d : Table) (i j a b : Z) (key k : string) (R : Rel).

Lemma vtx_Some d i V : d !! i = Some V → vtx d i = V.
Proof. unfold vtx. by intros ->. Qed.

Lemma vtx_None d i : d !! i = None → vtx d i = ∅.
Proof. unfold vtx. by intros ->. Qed.

Lemma vtx_lookup d i j :
  vtx d i !! j = match d !! i with Some V => V !! j | None => None end.
Proof. unfold vtx. destruct (d !! i); simpl; [done | apply lookup_empty]. Qed.

Lemma nbr_lookup d i j k : nbr d i j !! k = entry d i j k.
Proof.
  unfold nbr, entry. rewrite vtx_lookup.
  destruct (d !! i) as [V|]; simpl; [|apply lookup_empty].
  destruct (V !! j) as [N|]; simpl; [done | apply lookup_empty].
Qed.

Lemma rel_entry d i j k : rel d i j k = default Rel_default (entry d i j k).
Proof. unfold rel. by rewrite nbr_lookup. Qed.

Lemma entry_vtx d i j k :
  entry d i j k = match vtx d i !! j with Some N => N !! k | None => None end.
Proof. unfold entry. rewrite vtx_lookup. by destruct (d !! i). Qed.

Lemma entry_insert d i (V : NbrMap) a b k :
  entry (<[i := V]> d) a b k =
  if decide (i = a) then
    match V !! b with Some N => N !! k | None => None end
  else entry d a b k.
Proof. unfold entry. rewrite lookup_insert. by case_decide. Qed.

Lemma entry_insert_insert d i j (N : KeyMap) a b k :
  entry (<[i := <[j := N]> (vtx d i)]> d) a b k =
  if decide (i = a ∧ j = b) then N !! k else entry d a b k.
Proof.
  rewrite entry_insert. destruct (decide (i = a)) as [->|]; [|decide_cases].
  rewrite lookup_insert, (entry_vtx d a b k). decide_cases.
Qed.

Lemma entry_assign_r d i j key R a b k :
  entry (assign_r i j key R d) a b k =
  if decide (i = a ∧ j = b ∧ key = k) then Some R else entry d a b k.
Proof.
  unfold assign_r. rewrite entry_insert_insert.
  destruct (decide (i = a ∧ j = b)) as [[-> ->]|]; [|decide_cases].
  rewrite lookup_insert, nbr_lookup. decide_cases.
Qed.

Lemma entry_index_r d i j key a b k :
  entry (index_r i j key d) a b k =
  if decide (i = a ∧ j = b ∧ key = k) then Some (rel d i j key)
  else entry d a b k.
Proof. apply entry_assign_r. Qed.

Lemma entry_set_first d i j key f a b k :
  entry (set_first i j key f d) a b k =
  if decide (i = a ∧ j = b ∧ key = k) then Some (f, snd (rel d i j key))
  else entry d a b k.
Proof. apply entry_assign_r. Qed.

Lemma entry_set_second d i j key x a b k :
  entry (set_second i j key x d) a b k =
  if decide (i = a ∧ j = b ∧ key = k) then Some (fst (rel d i j key), x)
  else entry d a b k.
Proof. apply entry_assign_r. Qed.

Lemma entry_erase_r d i j key a b k :
  entry (erase_r i j key d) a b k =
  if decide (i = a ∧ j = b ∧ key = k) then None else entry d a b k.
Proof.
  unfold erase_r. rewrite entry_insert_insert.
  destruct (decide (i = a ∧ j = b)) as [[-> ->]|]; [|decide_cases].
  rewrite lookup_delete, nbr_lookup. decide_cases.
Qed.

Lemma entry_erase_n d i j a b k :
  entry (erase_n i j d) a b k =
  if decide (i = a ∧ j = b) then None else entry d a b k.
Proof.
  unfold erase_n. rewrite entry_insert.
  destruct (decide (i = a)) as [->|]; [|decide_cases].
  rewrite lookup_delete, (entry_vtx d a b k). decide_cases.
Qed.

Lemma entry_erase_v d i a b k :
  entry (erase_v i d) a b k = if decide (i = a) then None else entry d a b k.
Proof. unfold erase_v, entry. rewrite lookup_delete. decide_cases. Qed.

Lemma entry_index_v d i a b k : entry (index_v i d) a b k = entry d a b k.
Proof.
  unfold index_v. rewrite entry_insert. case_decide; [subst|done].
  by rewrite (entry_vtx d a b k).
Qed.

Lemma entry_index_n d i j a b k : entry (index_n i j d) a b k = entry d a b k.
Proof.
  unfold index_n. rewrite entry_insert_insert.
  case_decide as H; [destruct H; subst|done]. by rewrite nbr_lookup.
Qed.

(** *** Pruning, in closed form *)

Lemma size_eqb_empty {K} `{Countable K} {A} (m : gmap K A) :
  (size m =? 0)%nat = bool_decide (m = ∅).
Proof.
  destruct (decide (m = ∅)) as [->|Hne].
  - by rewrite map_size_empty, bool_decide_eq_true_2.
  - rewrite bool_decide_eq_false_2 by done.
    apply Nat.eqb_neq. by rewrite map_size_empty_iff.
Qed.

Lemma insert_vtx_nbr d i j : nbr d i j ≠ ∅ → <[j := nbr d i j]> (vtx d i) = vtx d i.
Proof.
  intros Hne. apply insert_id. unfold nbr in *.
  destruct (vtx d i !! j); [done|]. by destruct Hne.
Qed.

Lemma insert_vtx d i : vtx d i ≠ ∅ → <[i := vtx d i]> d = d.
Proof.
  intros Hne. apply insert_id. unfold vtx in *.
  destruct (d !! i); [done|]. by destruct Hne.
Qed.

Lemma vtx_insert d i (V : NbrMap) a :
  vtx (<[i := V]> d) a = if decide (i = a) then V else vtx d a.
Proof. unfold vtx. rewrite lookup_insert. by case_decide. Qed.

Lemma nbr_index_n d i j : nbr (index_n i j d) i j = nbr d i j.
Proof.
  unfold index_n, nbr at 1. rewrite vtx_insert, decide_True by done.
  by rewrite lookup_insert_eq.
Qed.

Lemma prune_n_eq d i j :
  prune_n i j d =
  <[i := if decide (nbr d i j = ∅) then delete j (vtx d i) else vtx d i]> d.
Proof.
  unfold prune_n. rewrite size_eqb_empty, nbr_index_n.
  unfold erase_n, index_n. rewrite vtx_insert, decide_True by done.
  destruct (decide (nbr d i j = ∅)) as [He|Hne].
  - rewrite bool_decide_eq_true_2 by done.
    by rewrite insert_insert_eq, delete_insert_eq.
  - rewrite bool_decide_eq_false_2 by done. by rewrite insert_vtx_nbr.
Qed.

Lemma prune_v_eq d i :
  prune_v i d = if decide (vtx d i = ∅) then delete i d else d.
Proof.
  unfold prune_v. rewrite size_eqb_empty.
  unfold erase_v, index_v. rewrite vtx_insert, decide_True by done.
  destruct (decide (vtx d i = ∅)) as [He|Hne].
  - rewrite bool_decide_eq_true_2 by done. by rewrite delete_insert_eq.
  - rewrite bool_decide_eq_false_2 by done. by rewrite insert_vtx.
Qed.

Lemma entry_prune_n d i j a b k : entry (prune_n i j d) a b k = entry d a b k.
Proof.
  rewrite prune_n_eq, entry_insert.
  destruct (decide (i = a)) as [->|]; [|done].
  rewrite (entry_vtx d a b k).
  destruct (decide (nbr d a j = ∅)) as [He|]; [|done].
  rewrite lookup_delete. destruct (decide (j = b)) as [->|]; [|done].
  fold (nbr d a b). unfold nbr in He.
  destruct (vtx d a !! b) as [N|]; [|done].
  simpl in He. subst N. by rewrite lookup_empty.
Qed.

Lemma entry_prune_v d i a b k : entry (prune_v i d) a b k = entry d a b k.
Proof.
  rewrite prune_v_eq. destruct (decide (vtx d i = ∅)) as [He|]; [|done].
  fold (erase_v i d). rewrite entry_erase_v.
  destruct (decide (i = a)) as [->|]; [|done].
  by rewrite (entry_vtx d a b k), He, lookup_empty.
Qed.

Lemma entry_prune d i j a b k : entry (prune i j d) a b k = entry d a b k.
Proof. unfold prune. by rewrite !entry_prune_v, !entry_prune_n. Qed.

End TableLemmas.

(* ================================================================== *)
(** ** Queries and mutations, seen through [entry] *)
(* ================================================================== *)

Section EntrySpecs.
Implicit Types (g : Graph) (d : Table) (i j a b : Z) (key k : string).

Lemma contains_key_entry g i j key undir :
  contains_key g i j key undir =
  match entry (data g) i j key with
  | Some R => undir || fst R
  | None => false
  end.
Proof.
  unfold contains_key, entry.
  destruct (data g !! i) as [V|]; [|done]. by destruct (V !! j).
Qed.

Lemma get_entry g i j key :
  get g i j key =
  match entry (data g) i j key with
  | Some R => if negb (fst R) then F32.neg1_mul (snd R) else snd R
  | None => no_relationship g
  end.
Proof.
  unfold get, entry.
  destruct (data g !! i) as [V|]; [|done]. by destruct (V !! j).
Qed.

Lemma update_assign_r i j key o x d :
  update i j key o x d = assign_r i j key (o, x) d.
Proof.
  unfold update, assign_r, nbr.
  destruct (d !! i) as [V|] eqn:Hi.
  - rewrite (vtx_Some _ _ _ Hi).
    destruct (V !! j) as [N|] eqn:Hj; [by rewrite (vtx_Some _ _ _ Hi), Hj|].
    rewrite vtx_insert, decide_True, lookup_insert_eq by done.
    by rewrite !insert_insert_eq.
  - rewrite vtx_insert, decide_True, lookup_empty by done.
    rewrite vtx_insert, decide_True, lookup_insert_eq by done.
    rewrite (vtx_None _ _ Hi), lookup_empty. simpl.
    by rewrite !insert_insert_eq.
Qed.

Lemma entry_update i j key o x d a b k :
  entry (update i j key o x d) a b k =
  if decide (i = a ∧ j = b ∧ key = k) then Some (o, x) else entry d a b k.
Proof. rewrite update_assign_r. apply entry_assign_r. Qed.

Lemma index_r_present d i j key R :
  entry d i j key = Some R → index_r i j key d = d.
Proof.
  intros He. unfold index_r. rewrite rel_entry, He. simpl.
  rewrite <- nbr_lookup in He.
  rewrite (insert_id (nbr d i j)) by done.
  assert (nbr d i j ≠ ∅) as Hn by (intros E; by rewrite E in He).
  rewrite insert_vtx_nbr by done.
  apply insert_vtx. intros E. apply Hn. unfold nbr. by rewrite E.
Qed.

(** What [clear (i, j, key, undir)] leaves at each place of the table. *)
Lemma entry_clear_key_undir g i j key undir a b k :
  entry (data (clear_key_undir g i j key undir)) a b k =
  match entry (data g) i j key with
  | None => entry (data g) a b k
  | Some R =>
      if undir then
        if decide ((i = a ∧ j = b ∧ key = k) ∨ (j = a ∧ i = b ∧ key = k))
        then None else entry (data g) a b k
      else if negb (fst R) then entry (data g) a b k
      else
        match entry (data g) j i key with
        | Some (true, m') =>
            if decide (i = a ∧ j = b ∧ key = k) then Some (false, m')
            else entry (data g) a b k
        | _ =>
            if decide ((i = a ∧ j = b ∧ key = k) ∨ (j = a ∧ i = b ∧ key = k))
            then None else entry (data g) a b k
        end
  end.
Proof.
  unfold clear_key_undir, contains_undir_key. rewrite contains_key_entry.
  destruct (entry (data g) i j key) as [[o m]|] eqn:He; simpl; [|done].
  rewrite entry_prune. destruct undir.
  { rewrite !entry_erase_r. decide_cases. }
  rewrite (index_r_present _ _ _ _ _ He), rel_entry, He. simpl.
  destruct o; simpl; [|done].
  destruct (entry (data g) j i key) as [[o' m']|] eqn:He'.
  - rewrite (index_r_present _ _ _ _ _ He'), rel_entry, He'. simpl.
    destruct o'; simpl.
    + rewrite entry_set_second, entry_set_first, !rel_entry.
      rewrite !entry_set_first, !rel_entry, He.
      repeat case_decide; simplify_eq/=; try done; try (exfalso; tauto).
      all: try (destruct_and?; simplify_eq/=; try done; try (exfalso; tauto)).
      all: try (by rewrite He').
    + rewrite !entry_erase_r. decide_cases.
  - rewrite rel_entry, entry_index_r, rel_entry, He'.
    rewrite decide_True by done. simpl.
    rewrite !entry_erase_r, entry_index_r. decide_cases.
Qed.

Lemma clear_key_undir_config g i j key undir :
  directed (clear_key_undir g i j key undir) = directed g ∧
  no_relationship (clear_key_undir g i j key undir) = no_relationship g.
Proof. unfold clear_key_undir. by destruct (negb _). Qed.

(** What [set (i, j, key, undir, x)] leaves at each place of the table
    when [x] is not the no-relationship value. *)
Lemma entry_set g i j key undir x a b k :
  F32.is_no_relationship (no_relationship g) x = false →
  entry (data (set g i j key undir x)) a b k =
  if decide (i = a ∧ j = b ∧ key = k) then Some (true, x)
  else if decide (j = a ∧ i = b ∧ key = k) then
    if undir then Some (true, x)
    else
      match entry (data g) j i key with
      | Some (true, m) => Some (true, m)
      | _ => Some (false, x)
      end
  else entry (data g) a b k.
Proof.
  intros Hx. unfold set. rewrite Hx. destruct undir; simpl_graph.
  { rewrite !entry_update. decide_cases. }
  unfold contains. rewrite contains_key_entry. simpl_graph.
  rewrite entry_update.
  destruct (decide (i = j ∧ j = i ∧ key = key)) as [(-> & _)|Hij]; simpl_graph.
  { rewrite orb_true_r. simpl_graph.
    erewrite index_r_present by (rewrite entry_update; by rewrite decide_True).
    rewrite rel_entry, entry_update, decide_True by done. simpl_graph.
    rewrite entry_update. decide_cases. }
  destruct (entry (data g) j i key) as [[o' m']|] eqn:He'; simpl_graph.
  - erewrite index_r_present
      by (rewrite entry_update, decide_False by done; exact He').
    rewrite rel_entry, entry_update, decide_False, He' by done. simpl_graph.
    destruct (directed g), o'; simpl_graph; rewrite ?entry_update; decide_cases.
  - rewrite !entry_update. decide_cases.
Qed.

Lemma set_config g i j key undir x :
  directed (set g i j key undir x) = directed g ∧
  no_relationship (set g i j key undir x) = no_relationship g.
Proof.
  unfold set, clear_undir_key, clear_dir_key.
  repeat match goal with
         | |- context [if ?c then _ else _] => destruct c
         end; simpl; auto using clear_key_undir_config.
Qed.

End EntrySpecs.

(* ================================================================== *)
(** ** Facts about binary32 *)
(* ================================================================== *)

Section Float.

Lemma of_Z_neg1 : F32.of_Z (-1) = S754_finite true 8388608 (-23).
Proof. reflexivity. Qed.

Lemma shr_23 (m : positive) :
  SpecFloat.iter_pos shr_1 23
    (shr_record_of_loc (Zpos (8388608 * m)) loc_Exact)
  = Build_shr_record (Zpos m) false false.
Proof. reflexivity. Qed.

Lemma digits_shift (m : positive) :
  Zpos (digits2_pos (8388608 * m)) = Zpos (digits2_pos m) + 23.
Proof.
  change (8388608 * m)%positive with (Pos.iter xO m 23).
  simpl. rewrite !Pos2Z.inj_succ. lia.
Qed.

(** [-1 * x] is [-x] for every value of a [float]: the product is exact. *)
Lemma neg1_mul_opp (x : float) :
  F32.valid x = true → F32.neg1_mul x = F32.opp x.
Proof.
  intros Hv. unfold F32.neg1_mul, F32.mul. rewrite of_Z_neg1.
  destruct x as [s|s| |s m e]; try reflexivity.
  unfold F32.valid, valid_binary, bounded, canonical_mantissa in Hv.
  apply andb_prop in Hv as [Hc Hb].
  apply Z.eqb_eq in Hc.
  unfold SFmul, binary_round_aux, shr_fexp.
  unfold Zdigits2 at 1. rewrite digits_shift.
  replace (Z.pos (digits2_pos m) + 23 + (-23 + e))
    with (Z.pos (digits2_pos m) + e) by lia.
  rewrite Hc.
  replace (e - (-23 + e)) with 23 by lia.
  unfold shr at 1. rewrite shr_23.
  cbn [loc_of_shr_record shr_m round_nearest_even].
  replace (-23 + e + 23) with e by lia.
  unfold Zdigits2. rewrite Hc, Z.sub_diag.
  cbn [shr shr_record_of_loc shr_m].
  rewrite Hb. reflexivity.
Qed.


Lemma is_no_relationship_not_finite (nr : float) :
  F32.finite nr = false → F32.is_no_relationship nr nr = false.
Proof. destruct nr as [s|[|]| |s m e]; try discriminate; reflexivity. Qed.

Lemma SFcompare_antisym (x y : spec_float) :
  SFcompare y x = CompOpp <$> SFcompare x y.
Proof.
  destruct x as [[]|[]| |[] m1 e1], y as [[]|[]| |[] m2 e2];
    try reflexivity; simpl;
    rewrite (Z.compare_antisym e1 e2);
    destruct (e1 ?= e2); simpl; try reflexivity;
    pose proof (Pos.compare_cont_antisym m1 m2 Eq) as H; simpl in H;
    rewrite <- H; by rewrite ?CompOpp_involutive.
Qed.

(** A value at least the tolerance away from the sentinel fails the test
    of [set]. *)
Lemma differs_not_no_relationship (nr x : float) :
  F32.differs nr x = true → F32.is_no_relationship nr x = false.
Proof.
  unfold F32.differs, F32.is_no_relationship, SFleb, SFltb.
  rewrite (SFcompare_antisym F32.tolerance).
  by destruct (SFcompare F32.tolerance _) as [[]|].
Qed.

End Float.

(* ================================================================== *)
(** ** The mirror invariant *)
(* ================================================================== *)

Section Mirror.
Implicit Types (g : Graph) (d : Table) (i j a b n : Z) (key k : string).

Lemma mirror_inv_ext d d' :
  (∀ a b k, entry d' a b k = entry d a b k) → mirror_inv d → mirror_inv d'.
Proof.
  intros Hext Hinv a b k m. rewrite !Hext. apply Hinv.
Qed.

Lemma mirror_inv_prune d i j : mirror_inv d → mirror_inv (prune i j d).
Proof. apply mirror_inv_ext. intros. apply entry_prune. Qed.

Lemma mirror_inv_empty : mirror_inv ∅.
Proof. intros a b k m. unfold entry. by rewrite lookup_empty. Qed.

(** *** [clear (i, j, key, undir)] *)

Lemma mirror_inv_clear_key_undir g i j key undir :
  mirror_inv (data g) → mirror_inv (data (clear_key_undir g i j key undir)).
Proof.
  intros Hinv a b k m. rewrite !entry_clear_key_undir.
  destruct (entry (data g) i j key) as [[o m0]|] eqn:He; [|apply Hinv].
  destruct undir; simpl.
  { case_decide; [done|]. intros Hm%Hinv.
    rewrite decide_False by intuition congruence. done. }
  destruct o; simpl; [|apply Hinv].
  destruct (entry (data g) j i key) as [[[|] m']|] eqn:He'.
  - case_decide; [done|]. intros Hm%Hinv. case_decide; eauto.
  - case_decide; [done|]. intros Hm%Hinv.
    rewrite decide_False by intuition congruence. done.
  - case_decide; [done|]. intros Hm%Hinv.
    rewrite decide_False by intuition congruence. done.
Qed.

(** *** [set] *)

Lemma mirror_inv_set g i j key undir x :
  mirror_inv (data g) → mirror_inv (data (set g i j key undir x)).
Proof.
  intros Hinv.
  destruct (F32.is_no_relationship (no_relationship g) x) eqn:Hx.
  { unfold set. rewrite Hx.
    destruct undir; by apply mirror_inv_clear_key_undir. }
  intros a b k m. rewrite !entry_set by done.
  destruct (decide (i = a ∧ j = b ∧ key = k)) as [(-> & -> & ->)|Hn1].
  { intros _. case_decide; [eauto|]. rewrite decide_True by done.
    destruct undir; [eauto|].
    destruct (entry (data g) b a k) as [[[|] ?]|]; eauto. }
  destruct (decide (j = a ∧ i = b ∧ key = k)) as [(-> & -> & ->)|Hn2].
  { intros _. rewrite decide_True by done. eauto. }
  intros Hm%Hinv. repeat case_decide; eauto.
  destruct undir; [eauto|].
  destruct (entry (data g) j i key) as [[[|] ?]|]; eauto.
Qed.

(** *** [clear_dir (i, j)] *)

Lemma entry_clear_dir_step d i j key a b k :
  entry (clear_dir_step i j key d) a b k =
  match entry d i j key with
  | None => entry d a b k
  | Some R =>
      if negb (fst R) then entry d a b k
      else
        match entry d j i key with
        | Some (true, m') =>
            if decide (i = a ∧ j = b ∧ key = k) then Some (false, m')
            else entry d a b k
        | _ =>
            if decide ((i = a ∧ j = b ∧ key = k) ∨ (j = a ∧ i = b ∧ key = k))
            then None else entry d a b k
        end
  end.
Proof.
  unfold clear_dir_step. rewrite nbr_lookup.
  destruct (entry d i j key) as [[o m]|] eqn:He; [|done].
  destruct o; simpl; [|done].
  destruct (entry d j i key) as [[o' m']|] eqn:He'.
  - rewrite (index_r_present _ _ _ _ _ He'), rel_entry, He'. simpl.
    destruct o'; simpl.
    + rewrite entry_set_second, entry_set_first, !rel_entry.
      rewrite !entry_set_first, !rel_entry, He.
      repeat case_decide; destruct_and?; simplify_eq/=;
        try done; try (exfalso; intuition congruence).
      all: by rewrite He'.
    + rewrite !entry_erase_r. decide_cases.
  - rewrite rel_entry, entry_index_r, rel_entry, He'.
    rewrite decide_True by done. simpl.
    rewrite !entry_erase_r, entry_index_r. decide_cases.
Qed.

Lemma mirror_inv_clear_dir_step d i j key :
  mirror_inv d → mirror_inv (clear_dir_step i j key d).
Proof.
  intros Hinv a b k m. rewrite !entry_clear_dir_step.
  destruct (entry d i j key) as [[o m0]|] eqn:He; [|apply Hinv].
  destruct o; simpl; [|apply Hinv].
  destruct (entry d j i key) as [[[|] m']|] eqn:He'.
  - case_decide; [done|]. intros Hm%Hinv. case_decide; eauto.
  - case_decide; [done|]. intros Hm%Hinv.
    rewrite decide_False by intuition congruence. done.
  - case_decide; [done|]. intros Hm%Hinv.
    rewrite decide_False by intuition congruence. done.
Qed.

Lemma mirror_inv_clear_dir_vv g i j :
  mirror_inv (data g) → mirror_inv (data (clear_dir_vv g i j)).
Proof.
  intros Hinv. unfold clear_dir_vv.
  destruct (negb (contains_vv g i j)); [done|]. simpl.
  apply mirror_inv_prune.
  apply (map_fold_weak_ind (λ (r : Table) (_ : KeyMap), mirror_inv r));
    [done|].
  intros k R m r _ Hr. by apply mirror_inv_clear_dir_step.
Qed.

(** *** [clear_undir (i, j)] *)

Lemma entry_clear_undir_vv g i j a b k :
  entry (data (clear_undir_vv g i j)) a b k =
  if contains_undir_vv g i j then
    if decide ((i = a ∧ j = b) ∨ (j = a ∧ i = b)) then None
    else entry (data g) a b k
  else entry (data g) a b k.
Proof.
  unfold clear_undir_vv.
  destruct (contains_undir_vv g i j); simpl; [|done].
  rewrite !entry_prune_v, !entry_erase_n. decide_cases.
Qed.

Lemma mirror_inv_clear_undir_vv g i j :
  mirror_inv (data g) → mirror_inv (data (clear_undir_vv g i j)).
Proof.
  intros Hinv a b k m. rewrite !entry_clear_undir_vv.
  destruct (contains_undir_vv g i j); [|apply Hinv].
  case_decide; [done|]. intros Hm%Hinv.
  rewrite decide_False by intuition congruence. done.
Qed.

(** *** The neighbours of a vertex, whatever the direction *)

Lemma nbrs_undirected g i limit key :
  ∃ out, nbrs g i UNDIRECTED limit key = Some out ∧
    ∀ n, n ∈ out ↔
      ∃ (k : string) (R : Rel), entry (data g) i n k = Some R ∧ (limit = false ∨ k = key).
Proof.
  unfold nbrs, entry.
  destruct (data g !! i) as [V|]; last first.
  { exists ∅. split; [done|]. intros n. split; [|by intros (? & ? & ? & _)].
    intros Hn. by apply not_elem_of_empty in Hn. }
  apply (map_fold_weak_ind (λ (r : option (gset Z)) (m : NbrMap),
    ∃ out, r = Some out ∧
      ∀ n, n ∈ out ↔
        ∃ (k : string) (R : Rel), match m !! n with Some N => N !! k | None => None end = Some R
               ∧ (limit = false ∨ k = key))).
  { exists ∅. split; [done|]. intros n. rewrite lookup_empty.
    split; [|by intros (? & ? & ? & _)].
    intros Hn. by apply not_elem_of_empty in Hn. }
  intros j N m r Hj (out & -> & Hout).
  assert (∃ out', map_fold (λ (k : string) (R : Rel) (acc' : option (gset Z)),
              match acc' with
              | None => None
              | Some out0 =>
                  if negb limit || bool_decide (k = key) then
                    match nbrs_test (data g) i j k R UNDIRECTED with
                    | None => None
                    | Some true => Some ({[ j ]} ∪ out0)
                    | Some false => Some out0
                    end
                  else Some out0
              end) (Some out) N = Some out' ∧
            ∀ n, n ∈ out' ↔ n ∈ out ∨
               (n = j ∧ ∃ (k : string) (R : Rel), N !! k = Some R ∧ (limit = false ∨ k = key)))
    as (out' & Hfold & Hout').
  { apply (map_fold_weak_ind (λ (r : option (gset Z)) (m' : KeyMap),
      ∃ out', r = Some out' ∧
        ∀ n, n ∈ out' ↔ n ∈ out ∨
          (n = j ∧ ∃ (k : string) (R : Rel), m' !! k = Some R ∧ (limit = false ∨ k = key)))).
    { exists out. split; [done|]. intros n. split; [auto|].
      intros [?|(_ & ? & ? & H & _)]; [done|]. by rewrite lookup_empty in H. }
    intros k R m' r' Hk (out1 & -> & Hout1). simpl.
    destruct (negb limit || bool_decide (k = key)) eqn:Hc.
    - exists ({[ j ]} ∪ out1). split; [done|]. intros n.
      rewrite elem_of_union, elem_of_singleton, Hout1. split.
      + intros [->|[?|(-> & k' & R' & H' & Hl)]]; [right|by left|right].
        * split; [done|]. exists k, R. rewrite lookup_insert_eq.
          split; [done|]. apply orb_true_iff in Hc as [Hc|Hc].
          -- left. by destruct limit.
          -- right. by apply bool_decide_eq_true in Hc.
        * split; [done|]. exists k', R'. rewrite lookup_insert_ne; [done|].
          intros ->. by rewrite Hk in H'.
      + intros [?|(-> & _)]; [right; by left|by left].
    - exists out1. split; [done|]. intros n. rewrite Hout1.
      apply orb_false_iff in Hc as [Hc1 Hc2].
      apply negb_false_iff in Hc1. apply bool_decide_eq_false in Hc2.
      split.
      + intros [?|(-> & k' & R' & H' & Hl)]; [by left|right].
        split; [done|]. exists k', R'. rewrite lookup_insert_ne; [done|].
        intros ->. by rewrite Hk in H'.
      + intros [?|(-> & k' & R' & H' & Hl)]; [by left|right].
        split; [done|]. exists k', R'. split; [|done].
        rewrite lookup_insert in H'. case_decide; [|done].
        subst k'. destruct Hl; congruence. }
  assert (∀ n : Z, (∃ (k : string) (R : Rel), match <[j:=N]> m !! n with
                       | Some M => M !! k | None => None end = Some R
                       ∧ (limit = false ∨ k = key))
           ↔ (n = j ∧ ∃ (k : string) (R : Rel), N !! k = Some R ∧ (limit = false ∨ k = key))
             ∨ (∃ (k : string) (R : Rel), match m !! n with
                       | Some M => M !! k | None => None end = Some R
                       ∧ (limit = false ∨ k = key))) as Hsplit.
  { intros n. rewrite lookup_insert. case_decide as Hn.
    - subst n. rewrite Hj. split; [intros H; left; by split|].
      intros [[_ H]|(? & ? & ? & _)]; done.
    - split; [by right|]. intros [[-> _]|H]; done. }
  destruct (limit && bool_decide (N !! key = None)) eqn:Hskip.
  - exists out. split; [done|]. intros n. rewrite Hsplit, Hout.
    split; [by right|]. intros [(-> & k & R & Hk & Hl)|H]; [|done].
    apply andb_true_iff in Hskip as [Hlim Hnone].
    apply bool_decide_eq_true in Hnone.
    destruct Hl as [Hl|Hl]; [congruence|]. subst k. congruence.
  - exists out'. split; [done|]. intros n. rewrite Hsplit, Hout', Hout.
    tauto.
Qed.

(** The loops of the mutations never take the branch of an undefined
    [nbrs]. *)
Lemma nbrs_undirected_defined g i limit key :
  is_Some (nbrs g i UNDIRECTED limit key).
Proof. destruct (nbrs_undirected g i limit key) as (out & -> & _). eauto. Qed.

End Mirror.

Section MirrorLoops.
Implicit Types (g : Graph) (d : Table) (i j a b n : Z) (key k : string).

(** *** [clear_dir (i, key)], [clear_undir (i, key)], [clear (i, key)] *)

Lemma mirror_inv_clear_dir_vk g i key :
  mirror_inv (data g) → mirror_inv (data (clear_dir_vk g i key)).
Proof.
  intros Hinv. unfold clear_dir_vk. destruct (nbrs_all g i) as [N|]; [|done].
  apply (set_fold_ind_L (λ (r : Graph) (_ : gset Z), mirror_inv (data r)));
    [done|].
  intros n X r _ Hr. by apply mirror_inv_clear_key_undir.
Qed.

Lemma mirror_inv_clear_undir_vk g i key :
  mirror_inv (data g) → mirror_inv (data (clear_undir_vk g i key)).
Proof.
  intros Hinv. unfold clear_undir_vk.
  destruct (nbrs g i UNDIRECTED true key) as [N|]; [|done].
  apply (set_fold_ind_L (λ (r : Graph) (_ : gset Z), mirror_inv (data r)));
    [done|].
  intros n X r _ Hr. by apply mirror_inv_clear_key_undir.
Qed.

(** *** [clear (i)] *)

Lemma entry_clear_v_step d i n a b k :
  entry (clear_v_step i n d) a b k =
  if decide (n = a ∧ i = b) then None else entry d a b k.
Proof.
  unfold clear_v_step. destruct (d !! n) as [V|] eqn:Hn.
  - by rewrite entry_prune_v, entry_erase_n.
  - case_decide as H; [|done]. destruct H as [-> _].
    unfold entry. by rewrite Hn.
Qed.

Lemma entry_clear_v_loop d i (N : gset Z) a b k :
  entry (set_fold (clear_v_step i) (erase_v i d) N) a b k =
  if decide (i = a ∨ (i = b ∧ a ∈ N)) then None else entry d a b k.
Proof.
  revert a b k.
  refine (set_fold_ind_L (λ (r : Table) (X : gset Z), ∀ a b k,
    entry r a b k =
    if decide (i = a ∨ (i = b ∧ a ∈ X)) then None else entry d a b k)
    (clear_v_step i) (erase_v i d) _ _ N).
  - intros a b k. rewrite entry_erase_v.
    destruct (decide (i = a)) as [->|].
    + by rewrite decide_True by auto.
    + rewrite decide_False; [done|].
      intros [?|[_ H]]; [done|]. by apply not_elem_of_empty in H.
  - intros n X r Hn IH a b k. rewrite entry_clear_v_step, IH.
    destruct (decide (n = a ∧ i = b)) as [[-> ->]|Hne].
    + rewrite decide_True; [done|]. right. split; [done|].
      apply elem_of_union_l. by apply elem_of_singleton.
    + destruct (decide (i = a ∨ i = b ∧ a ∈ X)) as [H|H].
      * rewrite decide_True; [done|].
        destruct H as [?|[? ?]]; [by left|right].
        split; [done|]. by apply elem_of_union_r.
      * rewrite decide_False; [done|].
        intros [?|[? [Hx%elem_of_singleton|?]%elem_of_union]]; subst; tauto.
Qed.

Lemma entry_clear_v g i :
  contains_undir_v g i = true →
  ∃ N : gset Z,
    (∀ x, x ∈ N ↔ ∃ (k' : string) (R : Rel), entry (data g) i x k' = Some R) ∧
    ∀ a b k, entry (data (clear_v g i)) a b k =
      if decide (i = a ∨ (i = b ∧ a ∈ N)) then None else entry (data g) a b k.
Proof.
  intros Hc. unfold clear_v. rewrite Hc. simpl.
  destruct (nbrs_undirected g i false "") as (N & -> & HN). simpl.
  exists N. split.
  - intros x. rewrite HN. split.
    + intros (k' & R & H & _). eauto.
    + intros (k' & R & H). eauto.
  - intros a b k. apply entry_clear_v_loop.
Qed.

Lemma clear_v_absent g i : contains_undir_v g i = false → clear_v g i = g.
Proof. intros Hc. unfold clear_v. by rewrite Hc. Qed.

Lemma mirror_inv_clear_v g i :
  mirror_inv (data g) → mirror_inv (data (clear_v g i)).
Proof.
  intros Hinv. destruct (contains_undir_v g i) eqn:Hc;
    [|by rewrite clear_v_absent].
  destruct (entry_clear_v g i Hc) as (N & HN & He).
  intros a b k m. rewrite !He.
  case_decide as Hab; [done|]. intros Hm.
  destruct (Hinv _ _ _ _ Hm) as [R HR].
  rewrite decide_False; [eauto|].
  intros [->|[-> _]]; apply Hab; [|by left].
  right. split; [done|]. apply HN. eauto.
Qed.

(** *** [clear (key)] and [clear ()] *)

Lemma entry_clear_k g key a b k :
  entry (data (clear_k g key)) a b k =
  if decide (key = k) then None else entry (data g) a b k.
Proof.
  unfold clear_k, entry. simpl. rewrite lookup_omap.
  destruct (data g !! a) as [V|]; simpl; [|by case_decide].
  unfold clear_k_vtx. rewrite size_eqb_empty.
  case_bool_decide as HV; simpl.
  - case_decide; [done|].
    destruct (V !! b) as [N|] eqn:Hb; [|done].
    destruct (N !! k) as [R|] eqn:Hk; [|done]. exfalso.
    assert (omap (clear_k_nbr key) V !! b = Some (delete key N)) as H'.
    { rewrite lookup_omap, Hb. simpl. unfold clear_k_nbr.
      rewrite size_eqb_empty, bool_decide_eq_false_2; [done|].
      intros E. assert (delete key N !! k = Some R) as H'
        by by rewrite lookup_delete_ne.
      by rewrite E in H'. }
    by rewrite HV in H'.
  - rewrite lookup_omap. destruct (V !! b) as [N|]; simpl; [|by case_decide].
    unfold clear_k_nbr. rewrite size_eqb_empty.
    case_bool_decide as HN; simpl.
    + case_decide; [done|].
      rewrite <- (lookup_delete_ne N key k) by done. by rewrite HN.
    + rewrite lookup_delete. by case_decide.
Qed.

Lemma mirror_inv_clear_k g key :
  mirror_inv (data g) → mirror_inv (data (clear_k g key)).
Proof.
  intros Hinv a b k m. rewrite !entry_clear_k.
  case_decide; [done|]. apply Hinv.
Qed.

(** *** Every public [set] and [clear] *)

Lemma mirror_inv_exec (o : Op) g :
  mirror_inv (data g) → mirror_inv (data (exec o g)).
Proof.
  intros Hinv. destruct o; simpl.
  - by apply mirror_inv_set.
  - by apply mirror_inv_set.
  - by apply mirror_inv_set.
  - by apply mirror_inv_set.
  - by apply mirror_inv_set.
  - by apply mirror_inv_set.
  - by apply mirror_inv_set.
  - by apply mirror_inv_clear_dir_vv.
  - by apply mirror_inv_clear_undir_vv.
  - unfold clear_vv. destruct (directed g);
      [by apply mirror_inv_clear_dir_vv|by apply mirror_inv_clear_undir_vv].
  - by apply mirror_inv_clear_key_undir.
  - by apply mirror_inv_clear_key_undir.
  - by apply mirror_inv_clear_key_undir.
  - by apply mirror_inv_clear_key_undir.
  - by apply mirror_inv_clear_dir_vk.
  - by apply mirror_inv_clear_undir_vk.
  - unfold clear_vk. destruct (directed g);
      [by apply mirror_inv_clear_dir_vk|by apply mirror_inv_clear_undir_vk].
  - by apply mirror_inv_clear_v.
  - by apply mirror_inv_clear_k.
  - apply mirror_inv_empty.
Qed.

Lemma mirror_invb_spec d : mirror_invb d = true ↔ mirror_inv d.
Proof.
  unfold mirror_invb, mirror_inv. rewrite bool_decide_eq_true. split.
  - intros H i j key m He. unfold entry in He.
    destruct (d !! i) as [V|] eqn:Hi; [|done].
    destruct (V !! j) as [N|] eqn:Hj; [|done].
    by apply (H i V Hi j N Hj key (true, m) He).
  - intros H i V Hi j N Hj k [o m] Hk Ho. simpl in Ho. subst o.
    apply (H i j k m). unfold entry. by rewrite Hi, Hj.
Qed.

End MirrorLoops.

(* ================================================================== *)
(** ** No map is left present and empty *)
(* ================================================================== *)

Section NoEmpty.
Implicit Types (g : Graph) (d : Table) (i j a b n : Z) (key k : string).

Lemma no_empty_iff d :
  no_empty d ↔ (∀ a, vtx_ok d a) ∧ (∀ a b, nbr_ok d a b).
Proof.
  unfold no_empty, vtx_ok, nbr_ok. split; intros [Hv Hn]; split; try done.
  - intros a b N. rewrite vtx_lookup.
    destruct (d !! a) as [V|] eqn:Ha; [|done].
    intros Hb. by apply (Hn a V b N).
  - intros a V b N Ha Hb. apply (Hn a b). by rewrite vtx_lookup, Ha.
Qed.

Lemma no_empty_ne_off d i j : no_empty d → ne_off i j d.
Proof. rewrite no_empty_iff. intros [Hv Hn]. split; auto. Qed.

Lemma ne_off_sym d i j : ne_off i j d → ne_off j i d.
Proof. intros [Hv Hn]. split; auto. Qed.

Lemma vtx_delete d i a :
  vtx (delete i d) a = if decide (i = a) then ∅ else vtx d a.
Proof. unfold vtx. rewrite lookup_delete. by case_decide. Qed.

(** *** Writing the cell [(i, j)] *)

Lemma vtx_ok_insert_ne d i (V : NbrMap) a :
  a ≠ i → vtx_ok d a → vtx_ok (<[i := V]> d) a.
Proof. intros Hne Hok V'. rewrite lookup_insert_ne by done. apply Hok. Qed.

Lemma nbr_ok_insert_ne d i (V : NbrMap) a b :
  a ≠ i → nbr_ok d a b → nbr_ok (<[i := V]> d) a b.
Proof.
  intros Hne Hok N. rewrite vtx_insert, decide_False by done. apply Hok.
Qed.

Lemma nbr_ok_cell d i j (N : KeyMap) a b :
  ¬ (a = i ∧ b = j) → nbr_ok d a b →
  nbr_ok (<[i := <[j := N]> (vtx d i)]> d) a b.
Proof.
  intros Hne Hok. destruct (decide (a = i)) as [->|];
    [|by apply nbr_ok_insert_ne].
  intros N'. rewrite vtx_insert, decide_True by done.
  rewrite lookup_insert_ne by (intros ->; tauto). apply Hok.
Qed.

Lemma ne_off_cell d i j (N : KeyMap) :
  ne_off i j d → ne_off i j (<[i := <[j := N]> (vtx d i)]> d).
Proof.
  intros [Hv Hn]. split.
  - intros a Hi Hj. apply vtx_ok_insert_ne; auto.
  - intros a b Hij Hji. apply nbr_ok_cell; auto.
Qed.

Lemma ne_off_cell_sym d i j (N : KeyMap) :
  ne_off i j d → ne_off i j (<[j := <[i := N]> (vtx d j)]> d).
Proof.
  intros H. apply ne_off_sym, (ne_off_cell d j i N). by apply ne_off_sym.
Qed.

Lemma no_empty_assign_r d i j key (R : Rel) :
  no_empty d → no_empty (assign_r i j key R d).
Proof.
  rewrite !no_empty_iff. intros [Hv Hn]. unfold assign_r. split.
  - intros a. destruct (decide (a = i)) as [->|];
      [|by apply vtx_ok_insert_ne].
    intros V. rewrite lookup_insert_eq. intros [= <-].
    apply insert_non_empty.
  - intros a b. destruct (decide (a = i ∧ b = j)) as [[-> ->]|];
      [|by apply nbr_ok_cell].
    intros N. rewrite vtx_insert, decide_True, lookup_insert_eq by done.
    intros [= <-]. apply insert_non_empty.
Qed.

Lemma no_empty_update d i j key o x :
  no_empty d → no_empty (update i j key o x d).
Proof. rewrite update_assign_r. apply no_empty_assign_r. Qed.

(** *** Erasing *)

Lemma vtx_ok_delete d i a : vtx_ok d a → vtx_ok (delete i d) a.
Proof.
  intros Hok V. rewrite lookup_delete. case_decide; [done|]. apply Hok.
Qed.

Lemma nbr_ok_delete d i a b : nbr_ok d a b → nbr_ok (delete i d) a b.
Proof.
  intros Hok N. rewrite vtx_delete. case_decide; [|apply Hok].
  by rewrite lookup_empty.
Qed.

Lemma nbr_ok_erase_n d i j a b : nbr_ok d a b → nbr_ok (erase_n i j d) a b.
Proof.
  intros Hok. unfold erase_n. destruct (decide (a = i)) as [->|];
    [|by apply nbr_ok_insert_ne].
  intros N. rewrite vtx_insert, decide_True by done.
  rewrite lookup_delete. case_decide; [done|]. apply Hok.
Qed.

Lemma nbr_ok_erase_n_eq d i j : nbr_ok (erase_n i j d) i j.
Proof.
  intros N. unfold erase_n. rewrite vtx_insert, decide_True by done.
  by rewrite lookup_delete_eq.
Qed.

Lemma no_empty_erase_v d i : no_empty d → no_empty (erase_v i d).
Proof.
  rewrite !no_empty_iff. intros [Hv Hn]. unfold erase_v.
  split; intros; [by apply vtx_ok_delete|by apply nbr_ok_delete].
Qed.

(** *** Pruning *)

Lemma nbr_ok_prune_n_eq d i j : nbr_ok (prune_n i j d) i j.
Proof.
  intros N. rewrite prune_n_eq, vtx_insert, decide_True by done.
  destruct (decide (nbr d i j = ∅)) as [He|Hne].
  - by rewrite lookup_delete_eq.
  - intros HN. unfold nbr in Hne. by rewrite HN in Hne.
Qed.

Lemma nbr_ok_prune_n d i j a b : nbr_ok d a b → nbr_ok (prune_n i j d) a b.
Proof.
  intros Hok. rewrite prune_n_eq. destruct (decide (a = i)) as [->|];
    [|by apply nbr_ok_insert_ne].
  intros N. rewrite vtx_insert, decide_True by done.
  case_decide; [|apply Hok].
  rewrite lookup_delete. case_decide; [done|]. apply Hok.
Qed.

Lemma vtx_ok_prune_n d i j a : a ≠ i → vtx_ok d a → vtx_ok (prune_n i j d) a.
Proof. intros Hne Hok. rewrite prune_n_eq. by apply vtx_ok_insert_ne. Qed.

Lemma vtx_ok_prune_v_eq d i : vtx_ok (prune_v i d) i.
Proof.
  intros V. rewrite prune_v_eq. destruct (decide (vtx d i = ∅)) as [He|Hne].
  - by rewrite lookup_delete_eq.
  - intros HV. by rewrite (vtx_Some _ _ _ HV) in Hne.
Qed.

Lemma vtx_ok_prune_v d i a : vtx_ok d a → vtx_ok (prune_v i d) a.
Proof.
  intros Hok. rewrite prune_v_eq. case_decide; [|done].
  by apply vtx_ok_delete.
Qed.

Lemma nbr_ok_prune_v d i a b : nbr_ok d a b → nbr_ok (prune_v i d) a b.
Proof.
  intros Hok. rewrite prune_v_eq. case_decide; [|done].
  by apply nbr_ok_delete.
Qed.

Lemma no_empty_prune_vv d i j :
  (∀ a b, nbr_ok d a b) → (∀ a, a ≠ i → a ≠ j → vtx_ok d a) →
  no_empty (prune_v j (prune_v i d)).
Proof.
  intros Hn Hv. rewrite no_empty_iff. split.
  - intros a. destruct (decide (a = j)) as [->|Hj];
      [apply vtx_ok_prune_v_eq|].
    apply vtx_ok_prune_v. destruct (decide (a = i)) as [->|Hi];
      [apply vtx_ok_prune_v_eq|].
    apply vtx_ok_prune_v. auto.
  - intros a b. by do 2 apply nbr_ok_prune_v.
Qed.

Lemma no_empty_prune d i j : ne_off i j d → no_empty (prune i j d).
Proof.
  intros [Hv Hn]. unfold prune. apply no_empty_prune_vv.
  - intros a b. destruct (decide (a = j ∧ b = i)) as [[-> ->]|Hji];
      [apply nbr_ok_prune_n_eq|].
    apply nbr_ok_prune_n. destruct (decide (a = i ∧ b = j)) as [[-> ->]|Hij];
      [apply nbr_ok_prune_n_eq|].
    apply nbr_ok_prune_n. auto.
  - intros a Hi Hj. do 2 (apply vtx_ok_prune_n; [done|]). auto.
Qed.

End NoEmpty.

Section NoEmptyOps.
Implicit Types (g : Graph) (d : Table) (i j a b n : Z) (key k : string).

Ltac ne_off_cells :=
  unfold erase_r, index_r, set_first, set_second, assign_r;
  repeat first [ assumption | apply ne_off_cell | apply ne_off_cell_sym ].

Lemma no_empty_empty : no_empty ∅.
Proof. split; intros i V; by rewrite lookup_empty. Qed.

Lemma no_empty_clear_key_undir g i j key undir :
  no_empty (data g) → no_empty (data (clear_key_undir g i j key undir)).
Proof.
  intros Hne. unfold clear_key_undir.
  destruct (negb (contains_undir_key g i j key)); [done|]. simpl.
  apply no_empty_prune. apply (no_empty_ne_off _ i j) in Hne.
  destruct undir; [ne_off_cells|].
  destruct (negb (rel (index_r i j key (data g)) i j key).1); [ne_off_cells|].
  destruct (negb (rel (index_r j i key (index_r i j key (data g))) j i key).1);
    ne_off_cells.
Qed.

Lemma ne_off_clear_dir_step d i j key :
  ne_off i j d → ne_off i j (clear_dir_step i j key d).
Proof.
  intros Hne. unfold clear_dir_step.
  destruct (nbr d i j !! key) as [R|]; [|done].
  destruct (negb R.1); [done|].
  destruct (negb (rel (index_r j i key d) j i key).1); ne_off_cells.
Qed.

Lemma no_empty_clear_dir_vv g i j :
  no_empty (data g) → no_empty (data (clear_dir_vv g i j)).
Proof.
  intros Hne. unfold clear_dir_vv.
  destruct (negb (contains_vv g i j)); [done|]. simpl.
  apply no_empty_prune.
  apply (map_fold_weak_ind (λ (r : Table) (_ : KeyMap), ne_off i j r)).
  - by apply no_empty_ne_off.
  - intros k R m r _ Hr. by apply ne_off_clear_dir_step.
Qed.

Lemma no_empty_clear_undir_vv g i j :
  no_empty (data g) → no_empty (data (clear_undir_vv g i j)).
Proof.
  intros Hne. unfold clear_undir_vv.
  destruct (negb (contains_undir_vv g i j)); [done|]. simpl.
  apply no_empty_iff in Hne as [Hv Hn].
  apply no_empty_prune_vv.
  - intros a b. by do 2 apply nbr_ok_erase_n.
  - intros a Hi Hj. unfold erase_n. by do 2 (apply vtx_ok_insert_ne; [done|]).
Qed.

Lemma no_empty_set g i j key undir x :
  no_empty (data g) → no_empty (data (set g i j key undir x)).
Proof.
  intros Hne. unfold set.
  destruct (F32.is_no_relationship (no_relationship g) x).
  { destruct undir; by apply no_empty_clear_key_undir. }
  destruct undir; simpl_graph; [by do 2 apply no_empty_update|].
  destruct (negb (contains _ j i key)); simpl_graph;
    [by do 2 apply no_empty_update|].
  destruct (negb (rel _ j i key).1); simpl_graph.
  - apply no_empty_update. unfold index_r.
    by apply no_empty_assign_r, no_empty_update.
  - unfold index_r. by apply no_empty_assign_r, no_empty_update.
Qed.

Lemma no_empty_clear_dir_vk g i key :
  no_empty (data g) → no_empty (data (clear_dir_vk g i key)).
Proof.
  intros Hne. unfold clear_dir_vk. destruct (nbrs_all g i) as [N|]; [|done].
  apply (set_fold_ind_L (λ (r : Graph) (_ : gset Z), no_empty (data r)));
    [done|].
  intros n X r _ Hr. by apply no_empty_clear_key_undir.
Qed.

Lemma no_empty_clear_undir_vk g i key :
  no_empty (data g) → no_empty (data (clear_undir_vk g i key)).
Proof.
  intros Hne. unfold clear_undir_vk.
  destruct (nbrs g i UNDIRECTED true key) as [N|]; [|done].
  apply (set_fold_ind_L (λ (r : Graph) (_ : gset Z), no_empty (data r)));
    [done|].
  intros n X r _ Hr. by apply no_empty_clear_key_undir.
Qed.

Lemma no_empty_clear_v_step d i n :
  no_empty d → no_empty (clear_v_step i n d).
Proof.
  intros Hne. unfold clear_v_step. destruct (d !! n); [|done].
  apply no_empty_iff in Hne as [Hv Hn]. apply no_empty_iff. split.
  - intros a. destruct (decide (a = n)) as [->|];
      [apply vtx_ok_prune_v_eq|].
    apply vtx_ok_prune_v. unfold erase_n. by apply vtx_ok_insert_ne.
  - intros a b. by apply nbr_ok_prune_v, nbr_ok_erase_n.
Qed.

Lemma no_empty_clear_v g i :
  no_empty (data g) → no_empty (data (clear_v g i)).
Proof.
  intros Hne. unfold clear_v.
  destruct (negb (contains_undir_v g i)); [done|].
  destruct (nbrs g i UNDIRECTED false "") as [N|]; [|done]. simpl.
  apply (set_fold_ind_L (λ (r : Table) (_ : gset Z), no_empty r)).
  - by apply no_empty_erase_v.
  - intros n X r _ Hr. by apply no_empty_clear_v_step.
Qed.

(** [clear (key)] leaves no empty map, whatever the table was. *)
Lemma no_empty_clear_k g key : no_empty (data (clear_k g key)).
Proof.
  unfold clear_k. simpl.
  assert (∀ (V V' : NbrMap), clear_k_vtx key V = Some V' →
            V' ≠ ∅ ∧ ∀ b (N' : KeyMap), V' !! b = Some N' → N' ≠ ∅) as HV.
  { intros V V'. unfold clear_k_vtx. rewrite size_eqb_empty.
    case_bool_decide as HVe; [done|]. intros [= <-]. split; [done|].
    intros b N'. rewrite lookup_omap.
    destruct (V !! b) as [N|]; [|done]. simpl.
    unfold clear_k_nbr. rewrite size_eqb_empty.
    case_bool_decide; [done|]. by intros [= <-]. }
  split.
  - intros a V'. rewrite lookup_omap.
    destruct (data g !! a) as [V|]; [|done]. simpl.
    intros H. by apply HV in H as [? _].
  - intros a V' b N'. rewrite lookup_omap.
    destruct (data g !! a) as [V|]; [|done]. simpl.
    intros H. apply HV in H as [_ H]. apply H.
Qed.

Lemma no_empty_exec (o : Op) g :
  no_empty (data g) → no_empty (data (exec o g)).
Proof.
  intros Hne. destruct o; simpl.
  - by apply no_empty_set.
  - by apply no_empty_set.
  - by apply no_empty_set.
  - by apply no_empty_set.
  - by apply no_empty_set.
  - by apply no_empty_set.
  - by apply no_empty_set.
  - by apply no_empty_clear_dir_vv.
  - by apply no_empty_clear_undir_vv.
  - unfold clear_vv. destruct (directed g);
      [by apply no_empty_clear_dir_vv|by apply no_empty_clear_undir_vv].
  - by apply no_empty_clear_key_undir.
  - by apply no_empty_clear_key_undir.
  - by apply no_empty_clear_key_undir.
  - by apply no_empty_clear_key_undir.
  - by apply no_empty_clear_dir_vk.
  - by apply no_empty_clear_undir_vk.
  - unfold clear_vk. destruct (directed g);
      [by apply no_empty_clear_dir_vk|by apply no_empty_clear_undir_vk].
  - by apply no_empty_clear_v.
  - apply no_empty_clear_k.
  - apply no_empty_empty.
Qed.

Lemma no_empty_run (ops : list Op) g :
  no_empty (data g) → no_empty (data (run ops g)).
Proof.
  unfold run. revert g. induction ops as [|o ops IH]; intros g Hne; [done|].
  simpl. by apply IH, no_empty_exec.
Qed.

Lemma mirror_inv_run (ops : list Op) g :
  mirror_inv (data g) → mirror_inv (data (run ops g)).
Proof.
  unfold run. revert g. induction ops as [|o ops IH]; intros g Hinv; [done|].
  simpl. by apply IH, mirror_inv_exec.
Qed.

End NoEmptyOps.

(* ================================================================== *)
(** ** The neighbour sets *)
(* ================================================================== *)

Section Nbrs.
Implicit Types (g : Graph) (d : Table) (i j a b n : Z) (key k : string).

(** The two loops of [nbrs], for a test that is defined on every pair the
    loops reach. *)
Lemma nbrs_spec g i dir limit key (t : Z → string → Rel → bool) :
  (∀ j k (R : Rel), entry (data g) i j k = Some R →
     (limit = false ∨ k = key) →
     nbrs_test (data g) i j k R dir = Some (t j k R)) →
  ∃ out, nbrs g i dir limit key = Some out ∧
    ∀ n, n ∈ out ↔
      ∃ (k : string) (R : Rel), entry (data g) i n k = Some R ∧
        (limit = false ∨ k = key) ∧ t n k R = true.
Proof.
  unfold nbrs, entry.
  destruct (data g !! i) as [V|]; last first.
  { intros _. exists ∅. split; [done|]. intros n.
    split; [|by intros (? & ? & ? & _)].
    intros Hn. by apply not_elem_of_empty in Hn. }
  apply (map_fold_weak_ind (λ (r : option (gset Z)) (m : NbrMap),
    (∀ j k (R : Rel),
       match m !! j with Some M => M !! k | None => None end = Some R →
       (limit = false ∨ k = key) →
       nbrs_test (data g) i j k R dir = Some (t j k R)) →
    ∃ out, r = Some out ∧
      ∀ n, n ∈ out ↔
        ∃ (k : string) (R : Rel),
          match m !! n with Some M => M !! k | None => None end = Some R
          ∧ (limit = false ∨ k = key) ∧ t n k R = true)).
  { intros _. exists ∅. split; [done|]. intros n. rewrite lookup_empty.
    split; [|by intros (? & ? & ? & _)].
    intros Hn. by apply not_elem_of_empty in Hn. }
  intros j N m r Hj IH Ht.
  destruct IH as (out & -> & Hout).
  { intros j' k R HR. apply Ht. rewrite lookup_insert_ne; [done|].
    intros ->. by rewrite Hj in HR. }
  assert (∀ k (R : Rel), N !! k = Some R → (limit = false ∨ k = key) →
            nbrs_test (data g) i j k R dir = Some (t j k R)) as HtN.
  { intros k R HR. apply Ht. by rewrite lookup_insert_eq. }
  clear Ht.
  assert (∃ out', map_fold (λ (k : string) (R : Rel) (acc' : option (gset Z)),
              match acc' with
              | None => None
              | Some out0 =>
                  if negb limit || bool_decide (k = key) then
                    match nbrs_test (data g) i j k R dir with
                    | None => None
                    | Some true => Some ({[ j ]} ∪ out0)
                    | Some false => Some out0
                    end
                  else Some out0
              end) (Some out) N = Some out' ∧
            ∀ n, n ∈ out' ↔ n ∈ out ∨
               (n = j ∧ ∃ (k : string) (R : Rel), N !! k = Some R ∧
                  (limit = false ∨ k = key) ∧ t j k R = true))
    as (out' & Hfold & Hout').
  { revert HtN.
    apply (map_fold_weak_ind (λ (r : option (gset Z)) (m' : KeyMap),
      (∀ k (R : Rel), m' !! k = Some R → (limit = false ∨ k = key) →
         nbrs_test (data g) i j k R dir = Some (t j k R)) →
      ∃ out', r = Some out' ∧
        ∀ n, n ∈ out' ↔ n ∈ out ∨
          (n = j ∧ ∃ (k : string) (R : Rel), m' !! k = Some R ∧
             (limit = false ∨ k = key) ∧ t j k R = true))).
    { intros _. exists out. split; [done|]. intros n. split; [auto|].
      intros [?|(_ & ? & ? & H & _)]; [done|]. by rewrite lookup_empty in H. }
    intros k R m' r' Hk IH Ht.
    destruct IH as (out1 & -> & Hout1).
    { intros k' R' HR'. apply Ht. rewrite lookup_insert_ne; [done|].
      intros ->. by rewrite Hk in HR'. }
    assert (∀ n, (n = j ∧ ∃ (k0 : string) (R0 : Rel),
                    <[k:=R]> m' !! k0 = Some R0 ∧
                    (limit = false ∨ k0 = key) ∧ t j k0 R0 = true)
              ↔ (n = j ∧ (limit = false ∨ k = key) ∧ t j k R = true)
                ∨ (n = j ∧ ∃ (k0 : string) (R0 : Rel), m' !! k0 = Some R0 ∧
                     (limit = false ∨ k0 = key) ∧ t j k0 R0 = true))
      as Hsplit.
    { intros n. split.
      - intros (-> & k0 & R0 & H0 & Hl & Htrue).
        rewrite lookup_insert in H0. case_decide; simplify_eq.
        + left. done.
        + right. split; [done|]. eauto.
      - intros [(-> & Hl & Htrue)|(-> & k0 & R0 & H0 & Hl & Htrue)].
        + split; [done|]. exists k, R. by rewrite lookup_insert_eq.
        + split; [done|]. exists k0, R0. rewrite lookup_insert_ne; [done|].
          intros ->. by rewrite Hk in H0. }
    cbn beta.
    destruct (negb limit || bool_decide (k = key)) eqn:Hc.
    - assert (limit = false ∨ k = key) as Hl.
      { apply orb_true_iff in Hc as [Hc|Hc].
        - left. by destruct limit.
        - right. by apply bool_decide_eq_true in Hc. }
      rewrite (Ht k R) by (by rewrite ?lookup_insert_eq).
      destruct (t j k R) eqn:Htk.
      + exists ({[ j ]} ∪ out1). split; [done|]. intros n.
        rewrite elem_of_union, elem_of_singleton, Hout1, Hsplit. tauto.
      + exists out1. split; [done|]. intros n. rewrite Hout1, Hsplit.
        split; [tauto|]. intros [?|[(_ & _ & ?)|?]]; [tauto|done|tauto].
    - exists out1. split; [done|]. intros n. rewrite Hout1, Hsplit.
      apply orb_false_iff in Hc as [Hc1 Hc2].
      apply negb_false_iff in Hc1. apply bool_decide_eq_false in Hc2.
      split; [tauto|]. intros [?|[(_ & Hl & _)|?]]; [tauto| |tauto].
      destruct Hl; congruence. }
  assert (∀ n : Z, (∃ (k : string) (R : Rel),
                      match <[j:=N]> m !! n with
                      | Some M => M !! k | None => None end = Some R
                      ∧ (limit = false ∨ k = key) ∧ t n k R = true)
           ↔ (n = j ∧ ∃ (k : string) (R : Rel), N !! k = Some R ∧
                (limit = false ∨ k = key) ∧ t j k R = true)
             ∨ (∃ (k : string) (R : Rel),
                  match m !! n with
                  | Some M => M !! k | None => None end = Some R
                  ∧ (limit = false ∨ k = key) ∧ t n k R = true)) as Hsplit.
  { intros n. rewrite lookup_insert. case_decide as Hn.
    - subst n. rewrite Hj. split; [intros H; left; by split|].
      intros [[_ H]|(? & ? & ? & _)]; done.
    - split; [by right|]. intros [[-> _]|H]; done. }
  destruct (limit && bool_decide (N !! key = None)) eqn:Hskip.
  - exists out. split; [done|]. intros n. rewrite Hsplit, Hout.
    split; [by right|]. intros [(-> & k & R & Hk & Hl & _)|H]; [|done].
    apply andb_true_iff in Hskip as [Hlim Hnone].
    apply bool_decide_eq_true in Hnone.
    destruct Hl as [Hl|Hl]; [congruence|]. subst k. congruence.
  - exists out'. split; [done|]. intros n. rewrite Hsplit, Hout', Hout.
    tauto.
Qed.

Lemma nbrs_test_entry d i j k (R : Rel) dir :
  (dir = TO → fst R = true → is_Some (entry d j i k)) →
  nbrs_test d i j k R dir = Some (dir_test d i dir j k R).
Proof.
  intros Hto. unfold nbrs_test, dir_test.
  destruct dir; simpl; [done|by destruct R.1|].
  destruct R.1 eqn:HR; simpl; [|done].
  destruct (Hto eq_refl eq_refl) as [R' HR']. rewrite HR'.
  unfold entry in HR'. destruct (d !! j) as [Vj|]; [|done].
  destruct (Vj !! i) as [Nji|]; [|done]. by rewrite HR'.
Qed.

(** [nbrs] is defined whenever the mirror invariant holds, and for
    [UNDIRECTED] and [FROM] on every table. *)
Lemma nbrs_dir_spec g i dir limit key :
  (dir = TO → mirror_inv (data g)) →
  ∃ out, nbrs g i dir limit key = Some out ∧
    ∀ n, n ∈ out ↔
      ∃ (k : string) (R : Rel), entry (data g) i n k = Some R ∧
        (limit = false ∨ k = key) ∧ dir_test (data g) i dir n k R = true.
Proof.
  intros Hinv. apply nbrs_spec. intros j k [o m] HR _.
  apply nbrs_test_entry. intros Hto Ho. simpl in Ho. subst o.
  by apply (Hinv Hto i j k m).
Qed.

End Nbrs.

(* ================================================================== *)
(** ** Presence is symmetric *)
(* ================================================================== *)

Section Sym.
Implicit Types (g : Graph) (d : Table) (i j a b n : Z) (key k : string).

Lemma sym_inv_mirror_inv d : sym_inv d → mirror_inv d.
Proof. intros Hs i j key m He. apply Hs. by rewrite He. Qed.

Lemma sym_inv_empty : sym_inv ∅.
Proof. intros a b k. unfold entry. by rewrite lookup_empty. Qed.

Lemma sym_inv_ext d d' :
  (∀ a b k, entry d' a b k = entry d a b k) → sym_inv d → sym_inv d'.
Proof. intros Hext Hinv a b k. rewrite !Hext. apply Hinv. Qed.

Lemma sym_inv_clear_key_undir g i j key undir :
  sym_inv (data g) → sym_inv (data (clear_key_undir g i j key undir)).
Proof.
  intros Hinv a b k. rewrite !entry_clear_key_undir.
  destruct (entry (data g) i j key) as [[o m0]|] eqn:He; [|apply Hinv].
  destruct undir; cbn [fst negb].
  { case_decide; [by intros ?%is_Some_None|]. intros Hm%Hinv.
    rewrite decide_False by intuition congruence. done. }
  destruct o; cbn [fst negb]; [|apply Hinv].
  destruct (entry (data g) j i key) as [[[|] m']|] eqn:He'.
  - case_decide as Hab.
    + intros _. destruct Hab as (-> & -> & ->). case_decide; [done|].
      by rewrite He'.
    + intros Hm%Hinv. case_decide; eauto.
  - case_decide; [by intros ?%is_Some_None|]. intros Hm%Hinv.
    rewrite decide_False by intuition congruence. done.
  - case_decide; [by intros ?%is_Some_None|]. intros Hm%Hinv.
    rewrite decide_False by intuition congruence. done.
Qed.

Lemma sym_inv_set g i j key undir x :
  sym_inv (data g) → sym_inv (data (set g i j key undir x)).
Proof.
  intros Hinv.
  destruct (F32.is_no_relationship (no_relationship g) x) eqn:Hx.
  { unfold set. rewrite Hx.
    destruct undir; by apply sym_inv_clear_key_undir. }
  assert (∀ a b k, (i = a ∧ j = b ∧ key = k) ∨ (j = a ∧ i = b ∧ key = k) →
            is_Some (entry (data (set g i j key undir x)) a b k)) as Hhit.
  { intros a b k Hab. rewrite entry_set by done.
    case_decide; [done|]. rewrite decide_True by tauto.
    destruct undir; [done|].
    by destruct (entry (data g) j i key) as [[[|] ?]|]. }
  intros a b k.
  destruct (decide ((i = a ∧ j = b ∧ key = k) ∨ (j = a ∧ i = b ∧ key = k)))
    as [Hab|Hab].
  { intros _. apply Hhit. tauto. }
  rewrite !entry_set by done.
  rewrite !decide_False by tauto. apply Hinv.
Qed.

Lemma sym_inv_clear_dir_step d i j key :
  sym_inv d → sym_inv (clear_dir_step i j key d).
Proof.
  intros Hinv a b k. rewrite !entry_clear_dir_step.
  destruct (entry d i j key) as [[o m0]|] eqn:He; [|apply Hinv].
  destruct o; cbn [fst negb]; [|apply Hinv].
  destruct (entry d j i key) as [[[|] m']|] eqn:He'.
  - case_decide as Hab.
    + intros _. destruct Hab as (-> & -> & ->). case_decide; [done|].
      by rewrite He'.
    + intros Hm%Hinv. case_decide; eauto.
  - case_decide; [by intros ?%is_Some_None|]. intros Hm%Hinv.
    rewrite decide_False by intuition congruence. done.
  - case_decide; [by intros ?%is_Some_None|]. intros Hm%Hinv.
    rewrite decide_False by intuition congruence. done.
Qed.

Lemma sym_inv_clear_dir_vv g i j :
  sym_inv (data g) → sym_inv (data (clear_dir_vv g i j)).
Proof.
  intros Hinv. unfold clear_dir_vv.
  destruct (negb (contains_vv g i j)); [done|]. simpl.
  apply (sym_inv_ext _ _ (entry_prune _ i j)).
  apply (map_fold_weak_ind (λ (r : Table) (_ : KeyMap), sym_inv r));
    [done|].
  intros k R m r _ Hr. by apply sym_inv_clear_dir_step.
Qed.

Lemma sym_inv_clear_undir_vv g i j :
  sym_inv (data g) → sym_inv (data (clear_undir_vv g i j)).
Proof.
  intros Hinv a b k. rewrite !entry_clear_undir_vv.
  destruct (contains_undir_vv g i j); [|apply Hinv].
  case_decide; [by intros ?%is_Some_None|]. intros Hm%Hinv.
  rewrite decide_False by intuition congruence. done.
Qed.

Lemma sym_inv_clear_dir_vk g i key :
  sym_inv (data g) → sym_inv (data (clear_dir_vk g i key)).
Proof.
  intros Hinv. unfold clear_dir_vk. destruct (nbrs_all g i) as [N|]; [|done].
  apply (set_fold_ind_L (λ (r : Graph) (_ : gset Z), sym_inv (data r)));
    [done|].
  intros n X r _ Hr. by apply sym_inv_clear_key_undir.
Qed.

Lemma sym_inv_clear_undir_vk g i key :
  sym_inv (data g) → sym_inv (data (clear_undir_vk g i key)).
Proof.
  intros Hinv. unfold clear_undir_vk.
  destruct (nbrs g i UNDIRECTED true key) as [N|]; [|done].
  apply (set_fold_ind_L (λ (r : Graph) (_ : gset Z), sym_inv (data r)));
    [done|].
  intros n X r _ Hr. by apply sym_inv_clear_key_undir.
Qed.

Lemma sym_inv_clear_v g i :
  sym_inv (data g) → sym_inv (data (clear_v g i)).
Proof.
  intros Hinv. destruct (contains_undir_v g i) eqn:Hc;
    [|by rewrite clear_v_absent].
  destruct (entry_clear_v g i Hc) as (N & HN & He).
  intros a b k. rewrite !He.
  case_decide as Hab; [by intros ?%is_Some_None|]. intros Hm.
  pose proof (Hinv _ _ _ Hm) as [R HR].
  rewrite decide_False; [eauto|].
  intros [->|[-> _]]; apply Hab; [|by left].
  right. split; [done|]. apply HN. eauto.
Qed.

Lemma sym_inv_clear_k g key :
  sym_inv (data g) → sym_inv (data (clear_k g key)).
Proof.
  intros Hinv a b k. rewrite !entry_clear_k.
  case_decide; [done|]. apply Hinv.
Qed.

Lemma sym_inv_exec (o : Op) g :
  sym_inv (data g) → sym_inv (data (exec o g)).
Proof.
  intros Hinv. destruct o; simpl.
  - by apply sym_inv_set.
  - by apply sym_inv_set.
  - by apply sym_inv_set.
  - by apply sym_inv_set.
  - by apply sym_inv_set.
  - by apply sym_inv_set.
  - by apply sym_inv_set.
  - by apply sym_inv_clear_dir_vv.
  - by apply sym_inv_clear_undir_vv.
  - unfold clear_vv. destruct (directed g);
      [by apply sym_inv_clear_dir_vv|by apply sym_inv_clear_undir_vv].
  - by apply sym_inv_clear_key_undir.
  - by apply sym_inv_clear_key_undir.
  - by apply sym_inv_clear_key_undir.
  - by apply sym_inv_clear_key_undir.
  - by apply sym_inv_clear_dir_vk.
  - by apply sym_inv_clear_undir_vk.
  - unfold clear_vk. destruct (directed g);
      [by apply sym_inv_clear_dir_vk|by apply sym_inv_clear_undir_vk].
  - by apply sym_inv_clear_v.
  - by apply sym_inv_clear_k.
  - apply sym_inv_empty.
Qed.

Lemma sym_inv_built dir x ops : sym_inv (data (built dir x ops)).
Proof.
  unfold built, run.
  assert (sym_inv (data (Graph_new dir x))) as H by apply sym_inv_empty.
  revert H. generalize (Graph_new dir x).
  induction ops as [|o ops IH]; intros g Hg; [done|].
  simpl. by apply IH, sym_inv_exec.
Qed.

Lemma no_empty_built dir x ops : no_empty (data (built dir x ops)).
Proof. apply no_empty_run. simpl. apply no_empty_empty. Qed.

End Sym.

(* ================================================================== *)
(** ** What a mirror-only entry mirrors *)
(* ================================================================== *)

Section Partner.
Implicit Types (g : Graph) (d : Table) (i j a b n : Z) (key k : string).

Lemma partner_inv_empty : partner_inv ∅.
Proof. intros a b k m _. unfold entry. by rewrite lookup_empty. Qed.

Lemma partner_inv_ext d d' :
  (∀ a b k, entry d' a b k = entry d a b k) → partner_inv d → partner_inv d'.
Proof. intros Hext Hinv a b k m. rewrite !Hext. apply Hinv. Qed.

(** The directed clear of one key, on the two places it can change. *)
Lemma partner_inv_directed d d' i j key :
  (∀ a b k, entry d' a b k =
     match entry d i j key with
     | None => entry d a b k
     | Some R =>
         if negb (fst R) then entry d a b k
         else
           match entry d j i key with
           | Some (true, m') =>
               if decide (i = a ∧ j = b ∧ key = k) then Some (false, m')
               else entry d a b k
           | _ =>
               if decide ((i = a ∧ j = b ∧ key = k) ∨ (j = a ∧ i = b ∧ key = k))
               then None else entry d a b k
           end
     end) →
  partner_inv d → partner_inv d'.
Proof.
  intros Hd' Hinv a b k m Hab. rewrite !Hd'.
  destruct (entry d i j key) as [[o m0]|] eqn:He; [|by apply Hinv].
  destruct o; cbn [fst negb]; [|by apply Hinv].
  destruct (entry d j i key) as [[[|] m']|] eqn:He'.
  - case_decide as H1.
    + destruct H1 as (-> & -> & ->). intros [= <-].
      rewrite decide_False by (intros (? & _); done). done.
    + intros Hm. pose proof (Hinv _ _ _ _ Hab Hm) as Hp.
      case_decide as H2; [|done]. destruct H2 as (-> & -> & ->). congruence.
  - case_decide; [done|]. intros Hm. pose proof (Hinv _ _ _ _ Hab Hm) as Hp.
    rewrite decide_False by intuition congruence. done.
  - case_decide; [done|]. intros Hm. pose proof (Hinv _ _ _ _ Hab Hm) as Hp.
    rewrite decide_False by intuition congruence. done.
Qed.

Lemma partner_inv_clear_key_undir g i j key undir :
  partner_inv (data g) → partner_inv (data (clear_key_undir g i j key undir)).
Proof.
  destruct undir.
  - intros Hinv a b k m Hab. rewrite !entry_clear_key_undir.
    destruct (entry (data g) i j key) as [[o m0]|] eqn:He; [|by apply Hinv].
    case_decide; [done|]. intros Hm. pose proof (Hinv _ _ _ _ Hab Hm) as Hp.
    rewrite decide_False by intuition congruence. done.
  - apply (partner_inv_directed _ _ i j key). intros a b k.
    rewrite entry_clear_key_undir.
    by destruct (entry (data g) i j key) as [[[|] ?]|].
Qed.

Lemma partner_inv_clear_dir_step d i j key :
  partner_inv d → partner_inv (clear_dir_step i j key d).
Proof.
  apply (partner_inv_directed _ _ i j key). intros a b k.
  apply entry_clear_dir_step.
Qed.

Lemma partner_inv_set g i j key undir x :
  partner_inv (data g) → partner_inv (data (set g i j key undir x)).
Proof.
  intros Hinv.
  destruct (F32.is_no_relationship (no_relationship g) x) eqn:Hx.
  { unfold set. rewrite Hx.
    destruct undir; by apply partner_inv_clear_key_undir. }
  intros a b k m Hab. rewrite !entry_set by done.
  destruct (decide (i = a ∧ j = b ∧ key = k)) as [H1|H1]; [done|].
  destruct (decide (j = a ∧ i = b ∧ key = k)) as [H2|H2].
  - destruct H2 as (-> & -> & ->). rewrite decide_True by done.
    destruct undir; [done|].
    by destruct (entry (data g) a b k) as [[[|] ?]|]; intros [= <-].
  - intros Hm. pose proof (Hinv _ _ _ _ Hab Hm) as Hp.
    rewrite !decide_False by intuition congruence. done.
Qed.

Lemma partner_inv_clear_dir_vv g i j :
  partner_inv (data g) → partner_inv (data (clear_dir_vv g i j)).
Proof.
  intros Hinv. unfold clear_dir_vv.
  destruct (negb (contains_vv g i j)); [done|]. simpl.
  apply (partner_inv_ext _ _ (entry_prune _ i j)).
  apply (map_fold_weak_ind (λ (r : Table) (_ : KeyMap), partner_inv r));
    [done|].
  intros k R m r _ Hr. by apply partner_inv_clear_dir_step.
Qed.

Lemma partner_inv_clear_undir_vv g i j :
  partner_inv (data g) → partner_inv (data (clear_undir_vv g i j)).
Proof.
  intros Hinv a b k m Hab. rewrite !entry_clear_undir_vv.
  destruct (contains_undir_vv g i j); [|by apply Hinv].
  case_decide; [done|]. intros Hm. pose proof (Hinv _ _ _ _ Hab Hm) as Hp.
  rewrite decide_False by intuition congruence. done.
Qed.

Lemma partner_inv_clear_dir_vk g i key :
  partner_inv (data g) → partner_inv (data (clear_dir_vk g i key)).
Proof.
  intros Hinv. unfold clear_dir_vk. destruct (nbrs_all g i) as [N|]; [|done].
  apply (set_fold_ind_L (λ (r : Graph) (_ : gset Z), partner_inv (data r)));
    [done|].
  intros n X r _ Hr. by apply partner_inv_clear_key_undir.
Qed.

Lemma partner_inv_clear_undir_vk g i key :
  partner_inv (data g) → partner_inv (data (clear_undir_vk g i key)).
Proof.
  intros Hinv. unfold clear_undir_vk.
  destruct (nbrs g i UNDIRECTED true key) as [N|]; [|done].
  apply (set_fold_ind_L (λ (r : Graph) (_ : gset Z), partner_inv (data r)));
    [done|].
  intros n X r _ Hr. by apply partner_inv_clear_key_undir.
Qed.

Lemma partner_inv_clear_v g i :
  partner_inv (data g) → partner_inv (data (clear_v g i)).
Proof.
  intros Hinv. destruct (contains_undir_v g i) eqn:Hc;
    [|by rewrite clear_v_absent].
  destruct (entry_clear_v g i Hc) as (N & HN & He).
  intros a b k m Hab. rewrite !He.
  case_decide as H1; [done|]. intros Hm.
  pose proof (Hinv _ _ _ _ Hab Hm) as Hp.
  rewrite decide_False; [done|].
  intros [->|[-> _]]; apply H1; [|by left].
  right. split; [done|]. apply HN. eauto.
Qed.

Lemma partner_inv_clear_k g key :
  partner_inv (data g) → partner_inv (data (clear_k g key)).
Proof.
  intros Hinv a b k m Hab. rewrite !entry_clear_k.
  case_decide; [done|]. by apply Hinv.
Qed.

Lemma partner_inv_exec (o : Op) g :
  partner_inv (data g) → partner_inv (data (exec o g)).
Proof.
  intros Hinv. destruct o; simpl.
  - by apply partner_inv_set.
  - by apply partner_inv_set.
  - by apply partner_inv_set.
  - by apply partner_inv_set.
  - by apply partner_inv_set.
  - by apply partner_inv_set.
  - by apply partner_inv_set.
  - by apply partner_inv_clear_dir_vv.
  - by apply partner_inv_clear_undir_vv.
  - unfold clear_vv. destruct (directed g);
      [by apply partner_inv_clear_dir_vv|by apply partner_inv_clear_undir_vv].
  - by apply partner_inv_clear_key_undir.
  - by apply partner_inv_clear_key_undir.
  - by apply partner_inv_clear_key_undir.
  - by apply partner_inv_clear_key_undir.
  - by apply partner_inv_clear_dir_vk.
  - by apply partner_inv_clear_undir_vk.
  - unfold clear_vk. destruct (directed g);
      [by apply partner_inv_clear_dir_vk|by apply partner_inv_clear_undir_vk].
  - by apply partner_inv_clear_v.
  - by apply partner_inv_clear_k.
  - apply partner_inv_empty.
Qed.

Lemma partner_inv_built dir x ops : partner_inv (data (built dir x ops)).
Proof.
  unfold built, run.
  assert (partner_inv (data (Graph_new dir x))) as H
    by apply partner_inv_empty.
  revert H. generalize (Graph_new dir x).
  induction ops as [|o ops IH]; intros g Hg; [done|].
  simpl. by apply IH, partner_inv_exec.
Qed.

End Partner.
(* ================================================================== *)
(** ** The magnitude a one-way mirror holds *)
(* ================================================================== *)

Section Magnitude.
Implicit Types (g : Graph) (d : Table) (i j a b n : Z) (key k : string).

Lemma mirror_mag_inv_split d : mirror_mag_inv d ↔ mirror_inv d ∧ mag_inv d.
Proof.
  split.
  - intros H. split.
    + intros i j key m He. destruct (H _ _ _ _ He) as (R & HR & _). eauto.
    + intros i j key m m' He He'. destruct (H _ _ _ _ He) as (R & HR & Hm).
      rewrite He' in HR. injection HR as <-. by apply Hm.
  - intros [Hmir Hmag] i j key m He.
    destruct (Hmir _ _ _ _ He) as [[o m'] HR]. exists (o, m').
    split; [done|]. cbn [fst snd]. intros ->. by apply (Hmag i j key).
Qed.

Lemma mag_inv_empty : mag_inv ∅.
Proof. intros a b k m m'. unfold entry. by rewrite lookup_empty. Qed.

Lemma mag_inv_ext d d' :
  (∀ a b k, entry d' a b k = entry d a b k) → mag_inv d → mag_inv d'.
Proof. intros Hext Hinv a b k m m'. rewrite !Hext. apply Hinv. Qed.

(** A table that only lost entries. *)
Lemma mag_inv_sub d d' :
  (∀ a b k R, entry d' a b k = Some R → entry d a b k = Some R) →
  mag_inv d → mag_inv d'.
Proof.
  intros Hsub Hinv a b k m m' H1%Hsub H2%Hsub. by apply (Hinv a b k).
Qed.

(** The directed clear of one key, on the two places it can change. *)
Lemma mag_inv_directed d d' i j key :
  (∀ a b k, entry d' a b k =
     match entry d i j key with
     | None => entry d a b k
     | Some R =>
         if negb (fst R) then entry d a b k
         else
           match entry d j i key with
           | Some (true, m') =>
               if decide (i = a ∧ j = b ∧ key = k) then Some (false, m')
               else entry d a b k
           | _ =>
               if decide ((i = a ∧ j = b ∧ key = k) ∨ (j = a ∧ i = b ∧ key = k))
               then None else entry d a b k
           end
     end) →
  mag_inv d → mag_inv d'.
Proof.
  intros Hd' Hinv.
  destruct (entry d i j key) as [[o m0]|] eqn:He;
    [|by apply (mag_inv_ext d)].
  destruct o; cbn [fst negb] in Hd'; [|by apply (mag_inv_ext d)].
  destruct (entry d j i key) as [[[|] m1]|] eqn:He'.
  - intros a b k m m'. rewrite !Hd'.
    case_decide as H1; [done|]. intros Hm.
    case_decide as H2; [|by apply Hinv].
    destruct H2 as (-> & -> & ->). intros [= <-]. congruence.
  - apply (mag_inv_sub d); [|done]. intros a b k R. rewrite Hd'.
    by case_decide.
  - apply (mag_inv_sub d); [|done]. intros a b k R. rewrite Hd'.
    by case_decide.
Qed.

Lemma mag_inv_clear_key_undir g i j key undir :
  mag_inv (data g) → mag_inv (data (clear_key_undir g i j key undir)).
Proof.
  destruct undir.
  - apply mag_inv_sub. intros a b k R. rewrite entry_clear_key_undir.
    destruct (entry (data g) i j key); [|done]. by case_decide.
  - apply (mag_inv_directed _ _ i j key). intros a b k.
    rewrite entry_clear_key_undir.
    by destruct (entry (data g) i j key) as [[[|] ?]|].
Qed.

Lemma mag_inv_clear_dir_step d i j key :
  mag_inv d → mag_inv (clear_dir_step i j key d).
Proof.
  apply (mag_inv_directed _ _ i j key). intros a b k.
  apply entry_clear_dir_step.
Qed.

Lemma mag_inv_set g i j key undir x :
  mag_inv (data g) → mag_inv (data (set g i j key undir x)).
Proof.
  intros Hinv.
  destruct (F32.is_no_relationship (no_relationship g) x) eqn:Hx.
  { unfold set. rewrite Hx.
    destruct undir; by apply mag_inv_clear_key_undir. }
  intros a b k m m'. rewrite !entry_set by done.
  destruct (decide (i = a ∧ j = b ∧ key = k)) as [(-> & -> & ->)|H1].
  { intros [= <-]. case_decide; [done|]. rewrite decide_True by done.
    destruct undir; [done|].
    destruct (entry (data g) b a k) as [[[|] ?]|]; congruence. }
  destruct (decide (j = a ∧ i = b ∧ key = k)) as [(-> & -> & ->)|H2].
  { intros _. by rewrite decide_True. }
  intros Hm. rewrite !decide_False by intuition congruence.
  by apply Hinv.
Qed.

Lemma mag_inv_clear_dir_vv g i j :
  mag_inv (data g) → mag_inv (data (clear_dir_vv g i j)).
Proof.
  intros Hinv. unfold clear_dir_vv.
  destruct (negb (contains_vv g i j)); [done|]. simpl.
  apply (mag_inv_ext _ _ (entry_prune _ i j)).
  apply (map_fold_weak_ind (λ (r : Table) (_ : KeyMap), mag_inv r));
    [done|].
  intros k R m r _ Hr. by apply mag_inv_clear_dir_step.
Qed.

Lemma mag_inv_clear_undir_vv g i j :
  mag_inv (data g) → mag_inv (data (clear_undir_vv g i j)).
Proof.
  apply mag_inv_sub. intros a b k R. rewrite entry_clear_undir_vv.
  destruct (contains_undir_vv g i j); [|done]. by case_decide.
Qed.

Lemma mag_inv_clear_dir_vk g i key :
  mag_inv (data g) → mag_inv (data (clear_dir_vk g i key)).
Proof.
  intros Hinv. unfold clear_dir_vk. destruct (nbrs_all g i) as [N|]; [|done].
  apply (set_fold_ind_L (λ (r : Graph) (_ : gset Z), mag_inv (data r)));
    [done|].
  intros n X r _ Hr. by apply mag_inv_clear_key_undir.
Qed.

Lemma mag_inv_clear_undir_vk g i key :
  mag_inv (data g) → mag_inv (data (clear_undir_vk g i key)).
Proof.
  intros Hinv. unfold clear_undir_vk.
  destruct (nbrs g i UNDIRECTED true key) as [N|]; [|done].
  apply (set_fold_ind_L (λ (r : Graph) (_ : gset Z), mag_inv (data r)));
    [done|].
  intros n X r _ Hr. by apply mag_inv_clear_key_undir.
Qed.

Lemma mag_inv_clear_v g i :
  mag_inv (data g) → mag_inv (data (clear_v g i)).
Proof.
  destruct (contains_undir_v g i) eqn:Hc; [|by rewrite clear_v_absent].
  destruct (entry_clear_v g i Hc) as (N & _ & He).
  apply mag_inv_sub. intros a b k R. rewrite He. by case_decide.
Qed.

Lemma mag_inv_clear_k g key :
  mag_inv (data g) → mag_inv (data (clear_k g key)).
Proof.
  apply mag_inv_sub. intros a b k R. rewrite entry_clear_k. by case_decide.
Qed.

Lemma mag_inv_exec (o : Op) g :
  mag_inv (data g) → mag_inv (data (exec o g)).
Proof.
  intros Hinv. destruct o; simpl.
  - by apply mag_inv_set.
  - by apply mag_inv_set.
  - by apply mag_inv_set.
  - by apply mag_inv_set.
  - by apply mag_inv_set.
  - by apply mag_inv_set.
  - by apply mag_inv_set.
  - by apply mag_inv_clear_dir_vv.
  - by apply mag_inv_clear_undir_vv.
  - unfold clear_vv. destruct (directed g);
      [by apply mag_inv_clear_dir_vv|by apply mag_inv_clear_undir_vv].
  - by apply mag_inv_clear_key_undir.
  - by apply mag_inv_clear_key_undir.
  - by apply mag_inv_clear_key_undir.
  - by apply mag_inv_clear_key_undir.
  - by apply mag_inv_clear_dir_vk.
  - by apply mag_inv_clear_undir_vk.
  - unfold clear_vk. destruct (directed g);
      [by apply mag_inv_clear_dir_vk|by apply mag_inv_clear_undir_vk].
  - by apply mag_inv_clear_v.
  - by apply mag_inv_clear_k.
  - apply mag_inv_empty.
Qed.

Lemma mirror_mag_inv_exec (o : Op) g :
  mirror_mag_inv (data g) → mirror_mag_inv (data (exec o g)).
Proof.
  rewrite !mirror_mag_inv_split. intros [Hmir Hmag].
  split; [by apply mirror_inv_exec|by apply mag_inv_exec].
Qed.

Lemma mirror_mag_invb_spec d : mirror_mag_invb d = true ↔ mirror_mag_inv d.
Proof.
  unfold mirror_mag_invb, mirror_mag_inv. rewrite bool_decide_eq_true. split.
  - intros H i j key m He. unfold entry in He.
    destruct (d !! i) as [V|] eqn:Hi; [|done].
    destruct (V !! j) as [N|] eqn:Hj; [|done].
    pose proof (H i V Hi j N Hj key (true, m) He eq_refl) as HR.
    destruct (entry d j i key) as [[o m']|]; [|done]. exists (o, m').
    split; [done|]. cbn [fst snd mirror_mag_ok] in *. intros ->.
    by apply bool_decide_eq_true in HR.
  - intros H i V Hi j N Hj k [o m] Hk Ho. simpl in Ho. subst o.
    destruct (H i j k m) as ([o' m'] & -> & HR).
    { unfold entry. by rewrite Hi, Hj. }
    cbn [fst snd mirror_mag_ok] in *. destruct o'; [done|].
    apply bool_decide_eq_true. by apply HR.
Qed.

End Magnitude.

(* ================================================================== *)
(** ** Tables without empty maps are determined by their entries *)
(* ================================================================== *)

Section Ext.
Implicit Types (g : Graph) (d : Table) (i j a b n : Z) (key k : string).

Lemma nbr_ok_has_entry d a b (N : KeyMap) :
  nbr_ok d a b → vtx d a !! b = Some N →
  ∃ k (R : Rel), entry d a b k = Some R.
Proof.
  intros Hok HN. destruct (map_choose N (Hok N HN)) as (k & R & Hk).
  exists k, R. by rewrite entry_vtx, HN.
Qed.

Lemma entry_nbr_Some d a b k (R : Rel) :
  entry d a b k = Some R → ∃ N : KeyMap, vtx d a !! b = Some N ∧ N !! k = Some R.
Proof.
  rewrite entry_vtx. destruct (vtx d a !! b) as [N|]; [eauto|done].
Qed.

Lemma no_empty_nbr_incl d d' a b (N : KeyMap) :
  no_empty d →
  (∀ a b k, entry d a b k = entry d' a b k) →
  vtx d a !! b = Some N → vtx d' a !! b = Some N.
Proof.
  intros [_ Hn]%no_empty_iff Hext HN.
  destruct (nbr_ok_has_entry d a b N (Hn a b) HN) as (k & R & Hk).
  rewrite Hext in Hk. apply entry_nbr_Some in Hk as (N' & HN' & _).
  rewrite HN'. f_equal. apply map_eq. intros k'.
  pose proof (Hext a b k') as He. rewrite !entry_vtx, HN, HN' in He. done.
Qed.

Lemma no_empty_vtx_incl d d' a (V : NbrMap) :
  no_empty d → no_empty d' →
  (∀ a b k, entry d a b k = entry d' a b k) →
  d !! a = Some V → d' !! a = Some V.
Proof.
  intros Hne Hne' Hext HV.
  pose proof Hne as [Hv _]%no_empty_iff.
  destruct (map_choose V (Hv a V HV)) as (b & N & Hb).
  assert (vtx d a !! b = Some N) as HN by by rewrite (vtx_Some _ _ _ HV).
  pose proof (no_empty_nbr_incl d d' a b N Hne Hext HN) as HN'.
  rewrite vtx_lookup in HN'. destruct (d' !! a) as [V'|] eqn:HV'; [|done].
  f_equal. apply map_eq. intros b'.
  destruct (V !! b') as [M|] eqn:HM.
  - assert (vtx d a !! b' = Some M) as H1 by by rewrite (vtx_Some _ _ _ HV).
    apply (no_empty_nbr_incl d d' a b' M Hne Hext) in H1.
    by rewrite (vtx_Some _ _ _ HV') in H1.
  - destruct (V' !! b') as [M'|] eqn:HM'; [|done].
    assert (vtx d' a !! b' = Some M') as H1 by by rewrite (vtx_Some _ _ _ HV').
    apply (no_empty_nbr_incl d' d a b' M' Hne') in H1; [|done].
    rewrite (vtx_Some _ _ _ HV) in H1. congruence.
Qed.

Lemma no_empty_ext d d' :
  no_empty d → no_empty d' →
  (∀ a b k, entry d a b k = entry d' a b k) → d = d'.
Proof.
  intros Hne Hne' Hext. apply map_eq. intros a.
  destruct (d !! a) as [V|] eqn:HV.
  - symmetry. by apply (no_empty_vtx_incl d d' a V).
  - destruct (d' !! a) as [V'|] eqn:HV'; [|done].
    apply (no_empty_vtx_incl d' d a V') in HV'; [congruence|done..].
Qed.

Lemma Graph_ext g g' :
  data g = data g' → directed g = directed g' →
  no_relationship g = no_relationship g' → g = g'.
Proof. destruct g, g'; simpl. by intros -> -> ->. Qed.

(** A vertex none of whose places has an entry is not in such a table. *)
Lemma no_empty_vertex_absent d i :
  no_empty d → (∀ b k, entry d i b k = None) → d !! i = None.
Proof.
  intros [Hv Hn]%no_empty_iff Hnone.
  destruct (d !! i) as [V|] eqn:HV; [|done]. exfalso.
  destruct (map_choose V (Hv i V HV)) as (b & N & Hb).
  assert (vtx d i !! b = Some N) as HN by by rewrite (vtx_Some _ _ _ HV).
  destruct (nbr_ok_has_entry d i b N (Hn i b) HN) as (k & R & Hk).
  by rewrite Hnone in Hk.
Qed.

(** *** The mutations keep the configuration *)

Lemma clear_dir_vk_config g i key :
  directed (clear_dir_vk g i key) = directed g ∧
  no_relationship (clear_dir_vk g i key) = no_relationship g.
Proof.
  unfold clear_dir_vk. destruct (nbrs_all g i) as [N|]; [|done].
  apply (set_fold_ind_L (λ (r : Graph) (_ : gset Z),
    directed r = directed g ∧ no_relationship r = no_relationship g));
    [done|].
  intros n X r _ [Hd Hr]. unfold clear_dir_key.
  destruct (clear_key_undir_config r i n key false) as [-> ->]. done.
Qed.

Lemma clear_undir_vk_config g i key :
  directed (clear_undir_vk g i key) = directed g ∧
  no_relationship (clear_undir_vk g i key) = no_relationship g.
Proof.
  unfold clear_undir_vk. destruct (nbrs g i UNDIRECTED true key) as [N|];
    [|done].
  apply (set_fold_ind_L (λ (r : Graph) (_ : gset Z),
    directed r = directed g ∧ no_relationship r = no_relationship g));
    [done|].
  intros n X r _ [Hd Hr]. unfold clear_undir_key.
  destruct (clear_key_undir_config r i n key true) as [-> ->]. done.
Qed.

Lemma exec_config (o : Op) g :
  directed (exec o g) = directed g ∧
  no_relationship (exec o g) = no_relationship g.
Proof.
  destruct o; simpl;
    unfold set_key, set_dir, set_undir, set_vv, set_dir_vv, set_undir_vv,
      clear_dir_key, clear_undir_key, clear_key;
    try apply set_config; try apply clear_key_undir_config;
    try apply clear_dir_vk_config; try apply clear_undir_vk_config.
  - unfold clear_dir_vv. by destruct (negb _).
  - unfold clear_undir_vv. by destruct (negb _).
  - unfold clear_vv, clear_dir_vv, clear_undir_vv.
    destruct (directed g) eqn:Hd; destruct (negb _); simpl; by rewrite ?Hd.
  - unfold clear_vk. destruct (directed g) eqn:Hd; rewrite <- Hd;
      [apply clear_dir_vk_config|apply clear_undir_vk_config].
  - unfold clear_v. destruct (negb _); [done|].
    by destruct (nbrs _ _ _ _ _).
  - done.
  - done.
Qed.

End Ext.

(* ================================================================== *)
(** ** The loops of the [clear] overloads, place by place *)
(* ================================================================== *)

Section Loops.
Implicit Types (g r : Graph) (d : Table) (i j a b n : Z) (key k : string).

(** [clear (i, j, key, undir)] changes no other place than [(i, j, key)]
    and [(j, i, key)]. *)
Lemma clear_key_undir_frame g i j key undir a b k :
  ¬ ((i = a ∧ j = b ∧ key = k) ∨ (j = a ∧ i = b ∧ key = k)) →
  entry (data (clear_key_undir g i j key undir)) a b k = entry (data g) a b k.
Proof.
  intros Hn. rewrite entry_clear_key_undir.
  destruct (entry (data g) i j key) as [[o m0]|]; [|done].
  destruct undir; [by rewrite decide_False|].
  destruct o; cbn [fst negb]; [|done].
  destruct (entry (data g) j i key) as [[[|] m']|];
    by rewrite decide_False by tauto.
Qed.

(** What it leaves at these two places depends on these two places only. *)
Lemma clear_key_undir_local g r i j key undir a b k :
  entry (data r) i j key = entry (data g) i j key →
  entry (data r) j i key = entry (data g) j i key →
  (i = a ∧ j = b ∧ key = k) ∨ (j = a ∧ i = b ∧ key = k) →
  entry (data (clear_key_undir r i j key undir)) a b k =
  entry (data (clear_key_undir g i j key undir)) a b k.
Proof.
  intros H1 H2 Hhit. rewrite !entry_clear_key_undir, H1, H2.
  destruct (entry (data g) i j key) as [[o m0]|] eqn:He.
  - destruct undir; [by rewrite !decide_True|].
    destruct o; cbn [fst negb].
    + destruct (entry (data g) j i key) as [[[|] m']|] eqn:He'.
      * destruct Hhit as [(-> & -> & ->)|(-> & -> & ->)].
        -- by rewrite !decide_True.
        -- case_decide; [done|]. congruence.
      * by rewrite !decide_True.
      * by rewrite !decide_True.
    + destruct Hhit as [(-> & -> & ->)|(-> & -> & ->)]; congruence.
  - destruct Hhit as [(-> & -> & ->)|(-> & -> & ->)]; congruence.
Qed.

Lemma clear_key_undir_absent g i j key undir :
  entry (data g) i j key = None → clear_key_undir g i j key undir = g.
Proof.
  intros He. unfold clear_key_undir, contains_undir_key.
  by rewrite contains_key_entry, He.
Qed.

(** The loop of [clear_dir (i, key)] and of [clear_undir (i, key)]. *)
Lemma entry_clear_vk_fold g i key undir (X : gset Z) a b k :
  entry (data (set_fold (λ (n : Z) (acc : Graph),
                           clear_key_undir acc i n key undir) g X)) a b k =
  if decide (a = i ∧ b ∈ X) then
    entry (data (clear_key_undir g i b key undir)) a b k
  else if decide (b = i ∧ a ∈ X) then
    entry (data (clear_key_undir g i a key undir)) a b k
  else entry (data g) a b k.
Proof.
  revert a b k.
  refine (set_fold_ind_L (λ (r : Graph) (X : gset Z), ∀ a b k,
    entry (data r) a b k =
    if decide (a = i ∧ b ∈ X) then
      entry (data (clear_key_undir g i b key undir)) a b k
    else if decide (b = i ∧ a ∈ X) then
      entry (data (clear_key_undir g i a key undir)) a b k
    else entry (data g) a b k)
    (λ (n : Z) (acc : Graph), clear_key_undir acc i n key undir) g _ _ X).
  - intros a b k. rewrite !decide_False; [done|..];
      intros [_ H]; by apply not_elem_of_empty in H.
  - intros n X' r Hn IH a b k.
    assert (entry (data r) i n key = entry (data g) i n key) as H1.
    { rewrite IH. rewrite !decide_False; [done|..]; intros [? ?]; by subst. }
    assert (entry (data r) n i key = entry (data g) n i key) as H2.
    { rewrite IH. rewrite !decide_False; [done|..]; intros [? ?]; by subst. }
    destruct (decide ((i = a ∧ n = b ∧ key = k) ∨ (n = a ∧ i = b ∧ key = k)))
      as [Hhit|Hmiss].
    + rewrite (clear_key_undir_local g r i n key undir a b k H1 H2 Hhit).
      destruct Hhit as [(-> & -> & ->)|(-> & -> & ->)].
      * rewrite decide_True; [done|]. split; [done|].
        apply elem_of_union_l. by apply elem_of_singleton.
      * case_decide as Ha.
        -- by destruct Ha as [-> _].
        -- rewrite decide_True; [done|]. split; [done|].
           apply elem_of_union_l. by apply elem_of_singleton.
    + rewrite (clear_key_undir_frame r i n key undir a b k Hmiss), IH.
      destruct (decide (k = key)) as [->|Hk].
      * assert (¬ (a = i ∧ b = n) ∧ ¬ (b = i ∧ a = n)) as [Hab Hba]
          by (split; intros [-> ->]; apply Hmiss; tauto).
        rewrite (decide_ext (a = i ∧ b ∈ {[n]} ∪ X') (a = i ∧ b ∈ X')).
        2:{ rewrite elem_of_union, elem_of_singleton. tauto. }
        rewrite (decide_ext (b = i ∧ a ∈ {[n]} ∪ X') (b = i ∧ a ∈ X')).
        2:{ rewrite elem_of_union, elem_of_singleton. tauto. }
        done.
      * rewrite !clear_key_undir_frame by (intros [(_&_&?)|(_&_&?)]; congruence).
        by repeat case_decide.
Qed.

End Loops.

Section Shrinks.
Implicit Types (g r : Graph) (d : Table) (i j a b n : Z) (key k : string).

Lemma shrinks_refl d : shrinks d d.
Proof. intros a b k R HR. eauto. Qed.

Lemma shrinks_trans d d' d'' : shrinks d d' → shrinks d' d'' → shrinks d d''.
Proof.
  intros H1 H2 a b k R HR.
  destruct (H2 _ _ _ _ HR) as (R1 & HR1 & E1).
  destruct (H1 _ _ _ _ HR1) as (R0 & HR0 & E0).
  exists R0. split; [done|]. intros Ho.
  rewrite <- (E1 Ho). apply E0. by rewrite (E1 Ho).
Qed.

Lemma shrinks_ext d d' :
  (∀ a b k, entry d' a b k = entry d a b k) → shrinks d d'.
Proof. intros Hext a b k R. rewrite Hext. eauto. Qed.

Lemma shrinks_clear_key_undir g i j key undir :
  shrinks (data g) (data (clear_key_undir g i j key undir)).
Proof.
  intros a b k R. rewrite entry_clear_key_undir.
  destruct (entry (data g) i j key) as [[o m0]|] eqn:He; [|eauto].
  destruct undir; [case_decide; [done|eauto]|].
  destruct o; cbn [fst negb]; [|eauto].
  destruct (entry (data g) j i key) as [[[|] m']|] eqn:He'.
  - case_decide as Hab; [|eauto]. destruct Hab as (-> & -> & ->).
    intros [= <-]. eexists. split; [done|]. done.
  - case_decide; [done|eauto].
  - case_decide; [done|eauto].
Qed.

Lemma shrinks_clear_dir_step d i j key : shrinks d (clear_dir_step i j key d).
Proof.
  intros a b k R. rewrite entry_clear_dir_step.
  destruct (entry d i j key) as [[o m0]|] eqn:He; [|eauto].
  destruct o; cbn [fst negb]; [|eauto].
  destruct (entry d j i key) as [[[|] m']|] eqn:He'.
  - case_decide as Hab; [|eauto]. destruct Hab as (-> & -> & ->).
    intros [= <-]. eexists. split; [done|]. done.
  - case_decide; [done|eauto].
  - case_decide; [done|eauto].
Qed.

Lemma shrinks_clear_dir_vv g i j :
  shrinks (data g) (data (clear_dir_vv g i j)).
Proof.
  unfold clear_dir_vv. destruct (negb (contains_vv g i j));
    [apply shrinks_refl|]. simpl.
  eapply shrinks_trans; [|apply shrinks_ext, entry_prune].
  apply (map_fold_weak_ind (λ (r : Table) (_ : KeyMap), shrinks (data g) r));
    [apply shrinks_refl|].
  intros k R m r _ Hr.
  eapply shrinks_trans; [exact Hr|apply shrinks_clear_dir_step].
Qed.

Lemma shrinks_clear_undir_vv g i j :
  shrinks (data g) (data (clear_undir_vv g i j)).
Proof.
  intros a b k R. rewrite entry_clear_undir_vv.
  destruct (contains_undir_vv g i j); [|eauto].
  case_decide; [done|eauto].
Qed.

Lemma shrinks_clear_vk_fold g i key undir (X : gset Z) :
  shrinks (data g)
    (data (set_fold (λ (n : Z) (acc : Graph),
                       clear_key_undir acc i n key undir) g X)).
Proof.
  apply (set_fold_ind_L (λ (r : Graph) (_ : gset Z),
    shrinks (data g) (data r))); [apply shrinks_refl|].
  intros n X' r _ Hr.
  eapply shrinks_trans; [exact Hr|apply shrinks_clear_key_undir].
Qed.

Lemma shrinks_clear_v g i : shrinks (data g) (data (clear_v g i)).
Proof.
  destruct (contains_undir_v g i) eqn:Hc;
    [|rewrite clear_v_absent by done; apply shrinks_refl].
  destruct (entry_clear_v g i Hc) as (N & HN & He).
  intros a b k R. rewrite He. case_decide; [done|eauto].
Qed.

Lemma shrinks_clear_k g key : shrinks (data g) (data (clear_k g key)).
Proof.
  intros a b k R. rewrite entry_clear_k. case_decide; [done|eauto].
Qed.

Lemma shrinks_exec (o : Op) g :
  is_clear o = true → shrinks (data g) (data (exec o g)).
Proof.
  intros Hc. destruct o; try discriminate Hc; simpl.
  - apply shrinks_clear_dir_vv.
  - apply shrinks_clear_undir_vv.
  - unfold clear_vv. destruct (directed g);
      [apply shrinks_clear_dir_vv|apply shrinks_clear_undir_vv].
  - apply shrinks_clear_key_undir.
  - apply shrinks_clear_key_undir.
  - apply shrinks_clear_key_undir.
  - apply shrinks_clear_key_undir.
  - unfold clear_dir_vk. destruct (nbrs_all g i);
      [apply shrinks_clear_vk_fold|apply shrinks_refl].
  - unfold clear_undir_vk. destruct (nbrs g i UNDIRECTED true key);
      [apply shrinks_clear_vk_fold|apply shrinks_refl].
  - unfold clear_vk, clear_dir_vk, clear_undir_vk.
    destruct (directed g).
    + destruct (nbrs_all g i);
        [apply shrinks_clear_vk_fold|apply shrinks_refl].
    + destruct (nbrs g i UNDIRECTED true key);
        [apply shrinks_clear_vk_fold|apply shrinks_refl].
  - apply shrinks_clear_v.
  - apply shrinks_clear_k.
  - intros a b k R. unfold entry. simpl. by rewrite lookup_empty.
Qed.

(** *** [clear_dir (i, j)], key by key *)

Lemma clear_dir_step_other d i j key a b k :
  key ≠ k → entry (clear_dir_step i j key d) a b k = entry d a b k.
Proof.
  intros Hk. rewrite entry_clear_dir_step.
  destruct (entry d i j key) as [[o m0]|]; [|done].
  destruct o; cbn [fst negb]; [|done].
  destruct (entry d j i key) as [[[|] m']|];
    by rewrite decide_False by (intros H; intuition congruence).
Qed.

Lemma clear_dir_step_local d d' i j key a b :
  entry d' i j key = entry d i j key →
  entry d' j i key = entry d j i key →
  entry d' a b key = entry d a b key →
  entry (clear_dir_step i j key d') a b key =
  entry (clear_dir_step i j key d) a b key.
Proof. intros H1 H2 H3. by rewrite !entry_clear_dir_step, H1, H2, H3. Qed.

Lemma entry_clear_dir_fold d i j (m : KeyMap) a b k :
  entry (map_fold (λ (k' : string) (_ : Rel) (acc : Table),
                     clear_dir_step i j k' acc) d m) a b k =
  if decide (is_Some (m !! k)) then entry (clear_dir_step i j k d) a b k
  else entry d a b k.
Proof.
  revert a b k.
  refine (map_fold_weak_ind (λ (r : Table) (m : KeyMap), ∀ a b k,
    entry r a b k =
    if decide (is_Some (m !! k)) then entry (clear_dir_step i j k d) a b k
    else entry d a b k)
    (λ (k' : string) (_ : Rel) (acc : Table), clear_dir_step i j k' acc)
    d _ _ m).
  - intros a b k. rewrite lookup_empty.
    rewrite decide_False; [done|]. by intros ?%is_Some_None.
  - intros k0 R m' r Hk0 IH a b k.
    assert (∀ a b, entry r a b k0 = entry d a b k0) as Hr.
    { intros a' b'. rewrite IH, Hk0.
      rewrite decide_False; [done|]. by intros ?%is_Some_None. }
    destruct (decide (k0 = k)) as [->|Hk].
    + rewrite lookup_insert_eq, decide_True by done.
      by apply clear_dir_step_local.
    + rewrite clear_dir_step_other by done.
      by rewrite IH, lookup_insert_ne.
Qed.

Lemma contains_vv_false_no_outward g i j key :
  contains_vv g i j = false →
  match entry (data g) i j key with
  | Some R => fst R = false
  | None => True
  end.
Proof.
  unfold contains_vv, contains_dir_vv, contains_undir_vv, entry.
  destruct (data g !! i) as [V|]; [|done].
  destruct (V !! j) as [N|]; [|done].
  destruct (N !! key) as [R|] eqn:HR; [|done].
  destruct (directed g).
  - unfold any_outward. intros Hf%bool_decide_eq_false.
    destruct R.1 eqn:Ho; [|done]. exfalso. apply Hf.
    exists key, R. done.
  - intros Hs%Nat.ltb_ge. exfalso.
    assert (size N = 0%nat) as Hz by lia.
    apply map_size_empty_iff in Hz. subst N. by rewrite lookup_empty in HR.
Qed.

(** [clear_dir (i, j)] does to every key what [clear_dir (i, j, key)]
    does. *)
Lemma entry_clear_dir_vv g i j a b k :
  entry (data (clear_dir_vv g i j)) a b k =
  entry (data (clear_dir_key g i j k)) a b k.
Proof.
  assert (entry (data (clear_dir_key g i j k)) a b k =
          entry (clear_dir_step i j k (data g)) a b k) as ->.
  { unfold clear_dir_key. rewrite entry_clear_key_undir, entry_clear_dir_step.
    by destruct (entry (data g) i j k) as [[[|] ?]|]. }
  unfold clear_dir_vv. destruct (contains_vv g i j) eqn:Hc; simpl.
  - rewrite entry_prune, entry_clear_dir_fold, nbr_lookup.
    case_decide as Hs; [done|].
    rewrite entry_clear_dir_step.
    destruct (entry (data g) i j k); [|done]. by destruct Hs.
  - pose proof (contains_vv_false_no_outward g i j k Hc) as Hno.
    rewrite entry_clear_dir_step.
    destruct (entry (data g) i j k) as [[o m]|]; [|done].
    simpl in Hno. by subst o.
Qed.

End Shrinks.

(* ================================================================== *)
(** ** The queries, seen through [entry] *)
(* ================================================================== *)

Section Queries.
Implicit Types (g : Graph) (d : Table) (i j a b n : Z) (key k : string).

Lemma contains_undir_key_true g i j key :
  contains_undir_key g i j key = true ↔ is_Some (entry (data g) i j key).
Proof.
  unfold contains_undir_key. rewrite contains_key_entry.
  destruct (entry (data g) i j key); simpl; split;
    first [done | by intros ?%is_Some_None].
Qed.

Lemma contains_dir_key_true g i j key :
  contains_dir_key g i j key = true ↔
  ∃ m, entry (data g) i j key = Some (true, m).
Proof.
  unfold contains_dir_key. rewrite contains_key_entry.
  destruct (entry (data g) i j key) as [[[|] m]|]; simpl; split;
    first [done | by eauto | by intros [? ?]].
Qed.

Lemma contains_undir_vv_true g i j :
  contains_undir_vv g i j = true ↔
  ∃ (k : string) (R : Rel), entry (data g) i j k = Some R.
Proof.
  unfold contains_undir_vv, entry.
  destruct (data g !! i) as [V|]; [|split; [done|by intros (? & ? & ?)]].
  destruct (V !! j) as [N|]; [|split; [done|by intros (? & ? & ?)]].
  rewrite Nat.ltb_lt. split.
  - intros Hs. apply map_choose. apply map_size_non_empty_iff. lia.
  - intros (k & R & Hk). assert (size N ≠ 0%nat); [|lia].
    apply map_size_non_empty_iff. intros ->. by rewrite lookup_empty in Hk.
Qed.

Lemma any_outward_true (N : KeyMap) :
  any_outward N = true ↔ ∃ (k : string) m, N !! k = Some (true, m).
Proof.
  unfold any_outward. rewrite bool_decide_eq_true. split.
  - intros (k & [o m] & Hk & Ho). simpl in Ho. subst o. eauto.
  - intros (k & m & Hk). exists k, (true, m). done.
Qed.

Lemma contains_dir_vv_true g i j :
  contains_dir_vv g i j = true ↔
  ∃ (k : string) m, entry (data g) i j k = Some (true, m).
Proof.
  unfold contains_dir_vv, entry.
  destruct (data g !! i) as [V|]; [|split; [done|by intros (? & ? & ?)]].
  destruct (V !! j) as [N|]; [|split; [done|by intros (? & ? & ?)]].
  apply any_outward_true.
Qed.

Lemma contains_dir_v_true g i :
  contains_dir_v g i = true ↔ ∃ j, contains_dir_vv g i j = true.
Proof.
  unfold contains_dir_v, contains_dir_vv.
  destruct (data g !! i) as [V|]; [|split; [done|by intros (? & ?)]].
  rewrite bool_decide_eq_true. split.
  - intros (j & N & Hj & HN). exists j. by rewrite Hj.
  - intros (j & Hj). destruct (V !! j) as [N|] eqn:HN; [|done].
    exists j, N. done.
Qed.

(** *** The sets of keys *)

Lemma elem_of_keys_of_vertex (V : NbrMap) k :
  k ∈ keys_of_vertex V ↔
  ∃ j (N : KeyMap), V !! j = Some N ∧ is_Some (N !! k).
Proof.
  unfold keys_of_vertex.
  apply (map_fold_weak_ind (λ (r : gset string) (m : NbrMap),
    k ∈ r ↔ ∃ j (N : KeyMap), m !! j = Some N ∧ is_Some (N !! k))).
  - split; [by intros ?%not_elem_of_empty|].
    intros (j & N & Hj & _). by rewrite lookup_empty in Hj.
  - intros j N m r Hj IH. rewrite elem_of_union, IH, elem_of_dom. split.
    + intros [HN|(j' & N' & Hj' & HN')].
      * exists j, N. by rewrite lookup_insert_eq.
      * exists j', N'. rewrite lookup_insert_ne; [done|].
        intros ->. by rewrite Hj in Hj'.
    + intros (j' & N' & Hj' & HN'). rewrite lookup_insert in Hj'.
      case_decide; simplify_eq; [by left|right; eauto].
Qed.

Lemma elem_of_keys g k :
  k ∈ keys g ↔ ∃ i j, is_Some (entry (data g) i j k).
Proof.
  unfold keys, entry.
  apply (map_fold_weak_ind (λ (r : gset string) (m : gmap Z NbrMap),
    k ∈ r ↔ ∃ i j, is_Some (match m !! i with
                             | Some V => match V !! j with
                                         | Some N => N !! k
                                         | None => None
                                         end
                             | None => None
                             end))).
  - split; [by intros ?%not_elem_of_empty|].
    intros (i & j & H). rewrite lookup_empty in H. by apply is_Some_None in H.
  - intros i V m r Hi IH.
    rewrite elem_of_union, IH, elem_of_keys_of_vertex. split.
    + intros [(j & N & Hj & HN)|(i' & j & H)].
      * exists i, j. by rewrite lookup_insert_eq, Hj.
      * exists i', j. rewrite lookup_insert_ne; [done|].
        intros ->. rewrite Hi in H. by apply is_Some_None in H.
    + intros (i' & j & H). rewrite lookup_insert in H.
      case_decide; simplify_eq.
      * left. destruct (V !! j) as [N|] eqn:Hj;
          [eauto|by apply is_Some_None in H].
      * right. eauto.
Qed.

Lemma elem_of_keys_vv g i j k :
  k ∈ keys_vv g i j ↔ is_Some (entry (data g) i j k).
Proof.
  unfold keys_vv, entry.
  destruct (data g !! i) as [V|];
    [|split; [by intros ?%not_elem_of_empty|by intros ?%is_Some_None]].
  destruct (V !! j) as [N|];
    [|split; [by intros ?%not_elem_of_empty|by intros ?%is_Some_None]].
  apply elem_of_dom.
Qed.

End Queries.

(* ================================================================== *)
(** ** [set] and [clear], composed *)
(* ================================================================== *)

Ltac place_cases :=
  repeat case_decide;
  repeat match goal with H : _ ∨ _ |- _ => destruct H end;
  destruct_and?; simplify_eq; try done; try congruence;
  try (exfalso; intuition congruence).

Section Compose.
Implicit Types (g r : Graph) (d : Table) (i j a b n : Z) (key k : string).

Lemma nr_set g i j key undir x :
  no_relationship (set g i j key undir x) = no_relationship g.
Proof. apply set_config. Qed.

Lemma nr_clear_key_undir g i j key undir :
  no_relationship (clear_key_undir g i j key undir) = no_relationship g.
Proof. apply clear_key_undir_config. Qed.

Lemma set_frame_entry g i j key undir x a b k :
  ¬ (i = a ∧ j = b ∧ key = k) → ¬ (j = a ∧ i = b ∧ key = k) →
  entry (data (set g i j key undir x)) a b k = entry (data g) a b k.
Proof.
  intros H1 H2.
  destruct (F32.is_no_relationship (no_relationship g) x) eqn:Hx.
  - unfold set. rewrite Hx. unfold clear_undir_key, clear_dir_key.
    destruct undir; apply clear_key_undir_frame; tauto.
  - rewrite entry_set by done. by rewrite !decide_False.
Qed.

Lemma entry_vertex d i j k : is_Some (entry d i j k) → i ∈ dom d.
Proof.
  unfold entry. rewrite elem_of_dom.
  destruct (d !! i); [eauto|by intros ?%is_Some_None].
Qed.

Lemma contains_undir_key_false g i j key :
  contains_undir_key g i j key = false ↔ entry (data g) i j key = None.
Proof.
  unfold contains_undir_key. rewrite contains_key_entry.
  by destruct (entry (data g) i j key).
Qed.

Lemma sym_inv_None d i j key :
  sym_inv d → entry d i j key = None → entry d j i key = None.
Proof.
  intros Hs He. destruct (entry d j i key) eqn:He'; [|done].
  destruct (Hs j i key) as [R HR]; [by rewrite He'|]. congruence.
Qed.

(** Graphs with the same configuration, no empty map and the same entries
    are the same graph. *)
Lemma Graph_entry_ext g g' :
  no_empty (data g) → no_empty (data g') →
  directed g = directed g' → no_relationship g = no_relationship g' →
  (∀ a b k, entry (data g) a b k = entry (data g') a b k) → g = g'.
Proof.
  intros Hne Hne' Hd Hr Hext. apply Graph_ext; try done.
  by apply no_empty_ext.
Qed.

End Compose.

(* ================================================================== *)
(** ** Neighbour sets and presence, in terms of the queries *)
(* ================================================================== *)

Lemma built_contains_undir_symmetric_aux
    (dir : bool) (x : float) (ops : list Op) (i j : Z) (key : string) :
  contains_undir_key (built dir x ops) i j key
    = contains_undir_key (built dir x ops) j i key ∧
  contains_undir_vv (built dir x ops) i j
    = contains_undir_vv (built dir x ops) j i.
Proof.
  pose proof (sym_inv_built dir x ops) as Hs. split.
  - apply eq_true_iff_eq. rewrite !contains_undir_key_true.
    split; apply Hs.
  - apply eq_true_iff_eq. rewrite !contains_undir_vv_true.
    split; intros (k & R & HR).
    + destruct (Hs i j k) as [R' HR']; [by rewrite HR|]. eauto.
    + destruct (Hs j i k) as [R' HR']; [by rewrite HR|]. eauto.
Qed.

Lemma nbrs_members_aux (g : Graph) (i : Z) (key : string) :
  ∃ A K : gset Z,
    nbrs_all g i = Some A ∧ nbrs_key g i key = Some K ∧
    (∀ n, n ∈ A ↔ contains_undir_vv g i n = true) ∧
    (∀ n, n ∈ K ↔ contains_undir_key g i n key = true).
Proof.
  destruct (nbrs_dir_spec g i UNDIRECTED false "") as (A & HA & HAm); [done|].
  destruct (nbrs_dir_spec g i UNDIRECTED true key) as (K & HK & HKm); [done|].
  exists A, K. split; [done|]. split; [done|]. split.
  - intros n. rewrite HAm, contains_undir_vv_true. split.
    + intros (k & R & HR & _). eauto.
    + intros (k & R & HR). exists k, R. auto.
  - intros n. rewrite HKm, contains_undir_key_true. split.
    + intros (k & R & HR & [?|?] & _); [done|]. subst k. by rewrite HR.
    + intros [R HR]. exists key, R. auto.
Qed.

Lemma nbrs_from_members_aux (g : Graph) (i : Z) (key : string) :
  ∃ F K : gset Z,
    nbrs_from g i = Some F ∧ nbrs_from_key g i key = Some K ∧
    (∀ n, n ∈ F ↔ contains_dir_vv g i n = true) ∧
    (∀ n, n ∈ K ↔ contains_dir_key g i n key = true) ∧
    (contains_dir_v g i = true ↔ ∃ n, n ∈ F).
Proof.
  destruct (nbrs_dir_spec g i FROM false "") as (F & HF & HFm); [done|].
  destruct (nbrs_dir_spec g i FROM true key) as (K & HK & HKm); [done|].
  assert (∀ n, n ∈ F ↔ contains_dir_vv g i n = true) as HF'.
  { intros n. rewrite HFm, contains_dir_vv_true. split.
    - intros (k & [o m] & HR & _ & Ho). simpl in Ho. subst o. eauto.
    - intros (k & m & HR). exists k, (true, m). auto. }
  exists F, K. split; [done|]. split; [done|]. split; [done|]. split.
  - intros n. rewrite HKm, contains_dir_key_true. split.
    + intros (k & [o m] & HR & [?|?] & Ho); [done|].
      simpl in Ho. subst o k. eauto.
    + intros [m HR]. exists key, (true, m). auto.
  - rewrite contains_dir_v_true.
    split; intros (n & Hn); exists n; by apply HF'.
Qed.

Lemma built_nbrs_to_members_aux
    (dir : bool) (x : float) (ops : list Op) (i : Z) (key : string) :
  ∃ T K : gset Z,
    nbrs_to (built dir x ops) i = Some T ∧
    nbrs_to_key (built dir x ops) i key = Some K ∧
    (∀ n, n ∈ T ↔ ∃ k : string,
       contains_undir_key (built dir x ops) i n k = true ∧
       (contains_dir_key (built dir x ops) i n k = false ∨
        contains_dir_key (built dir x ops) n i k = true)) ∧
    (∀ n, n ∈ K ↔
       contains_undir_key (built dir x ops) i n key = true ∧
       (contains_dir_key (built dir x ops) i n key = false ∨
        contains_dir_key (built dir x ops) n i key = true)).
Proof.
  set (g := built dir x ops).
  assert (mirror_inv (data g)) as Hm
    by apply sym_inv_mirror_inv, sym_inv_built.
  destruct (nbrs_dir_spec g i TO false "") as (T & HT & HTm); [done|].
  destruct (nbrs_dir_spec g i TO true key) as (K & HK & HKm); [done|].
  assert (∀ n k (R : Rel), entry (data g) i n k = Some R →
    (dir_test (data g) i TO n k R = true ↔
     contains_dir_key g i n k = false ∨ contains_dir_key g n i k = true))
    as Htest.
  { intros n k [o m] HR. unfold dir_test, contains_dir_key.
    rewrite !contains_key_entry, HR. cbn [fst negb orb].
    destruct o, (entry (data g) n i k) as [[[|] ?]|]; simpl;
      split; auto; intros [?|?]; done. }
  exists T, K. split; [done|]. split; [done|]. split.
  - intros n. rewrite HTm. split.
    + intros (k & R & HR & _ & Ht). exists k. split.
      * apply contains_undir_key_true. by rewrite HR.
      * by apply (Htest n k R).
    + intros (k & [R HR]%contains_undir_key_true & Ht).
      exists k, R. split; [done|]. split; [auto|]. by apply Htest.
  - intros n. rewrite HKm. split.
    + intros (k & R & HR & [?|?] & Ht); [done|]. subst k. split.
      * apply contains_undir_key_true. by rewrite HR.
      * by apply (Htest n key R).
    + intros ([R HR]%contains_undir_key_true & Ht).
      exists key, R. split; [done|]. split; [auto|]. by apply Htest.
Qed.

(* ================================================================== *)
(** ** Queries where nothing is stored *)
(* ================================================================== *)

Section Absent.
Implicit Types (g : Graph) (i j : Z) (key : string).

Lemma get_absent g i j key :
  entry (data g) i j key = None → get g i j key = no_relationship g.
Proof. intros He. by rewrite get_entry, He. Qed.

Lemma contains_key_absent g i j key undir :
  entry (data g) i j key = None → contains_key g i j key undir = false.
Proof. intros He. by rewrite contains_key_entry, He. Qed.

Lemma contains_absent_vertex g i j :
  data g !! i = None →
  contains_vv g i j = false ∧ contains_v g i = false.
Proof.
  intros Hi. unfold contains_vv, contains_v, contains_dir_vv,
    contains_undir_vv, contains_dir_v, contains_undir_v.
  rewrite Hi. by destruct (directed g).
Qed.

Lemma keys_vv_absent_vertex g i j : data g !! i = None → keys_vv g i j = ∅.
Proof. intros Hi. unfold keys_vv. by rewrite Hi. Qed.

Lemma nbrs_absent_vertex g i dir limit key :
  data g !! i = None → nbrs g i dir limit key = Some ∅.
Proof. intros Hi. unfold nbrs. by rewrite Hi. Qed.

(** [keys (i)] is the one query that does not compare [find] with
    [end()]. *)
Lemma keys_v_absent_vertex g i : data g !! i = None → keys_v g i = None.
Proof. intros Hi. unfold keys_v. by rewrite Hi. Qed.

End Absent.

(* ================================================================== *)
(** ** Self-loops *)
(* ================================================================== *)

Section SelfLoop.
Implicit Types (g : Graph) (i : Z) (key : string).

(** Both kinds of write leave one outward entry at [(i, i, key)]. *)
Lemma set_self_loop g i key undir (v : float) :
  F32.is_no_relationship (no_relationship g) v = false →
  entry (data (set g i i key undir v)) i i key = Some (true, v) ∧
  get (set g i i key undir v) i i key = v.
Proof.
  intros Hv. rewrite get_entry, entry_set by done.
  by rewrite decide_True.
Qed.

(** The undirected clear removes it. *)
Lemma clear_undir_self_loop g i key :
  entry (data (clear_key_undir g i i key true)) i i key = None.
Proof.
  rewrite entry_clear_key_undir.
  destruct (entry (data g) i i key) eqn:E; [|done].
  by rewrite decide_True by auto.
Qed.

(** The directed clear finds the entry outward at its own mirrored place
    and demotes it. *)
Lemma clear_dir_self_loop g i key (m : float) :
  entry (data g) i i key = Some (true, m) →
  entry (data (clear_key_undir g i i key false)) i i key = Some (false, m).
Proof.
  intros E. rewrite entry_clear_key_undir, E. cbn [fst negb].
  by rewrite decide_True.
Qed.

(** So does a directed write of the sentinel, which is that clear. *)
Lemma set_sentinel_self_loop g i key (x m : float) :
  F32.is_no_relationship (no_relationship g) x = true →
  entry (data g) i i key = Some (true, m) →
  entry (data (set g i i key false x)) i i key = Some (false, m).
Proof.
  intros Hx E. unfold set. rewrite Hx. by apply clear_dir_self_loop.
Qed.

End SelfLoop.

(* ================================================================== *)
(** ** The model on the scenarios of the specification *)
(* ================================================================== *)

Example tolerance_is_a_double : valid_binary 53 1024 F32.tolerance = true.
Proof. reflexivity. Qed.

Example roads_scenario :
  nbrs_from roads 1 = Some {[ 2 ]} ∧
  nbrs_to roads 2 = Some {[ 1 ]} ∧
  contains_dir_vv roads 2 3 = true ∧
  contains_dir_vv roads 3 2 = false ∧
  get roads 2 1 "road" = F32.of_Z (-10).
Proof. repeat split; vm_compute; reflexivity. Qed.

Example clear_of_a_key :
  keys two_keys = {[ "a"; "b" ]} ∧
  keys (clear_k two_keys "a") = {[ "b" ]} ∧
  vertices (clear_k two_keys "a") = {[ 1; 2 ]} ∧
  get (clear_k two_keys "a") 1 2 "b" = F32.of_Z 2 ∧
  get (clear_k two_keys "a") 1 2 "a" = F32.of_Z 0.
Proof. repeat split; vm_compute; reflexivity. Qed.

(* ================================================================== *)
(** ** The stated properties *)
(* ================================================================== *)

(** C1. Copying and assigning carry the table and the [directed] flag over,
    and leave [no_relationship] out: after [h = g], with [g] built with the
    sentinel 5 and [h] with the sentinel 0, [h.get(1, 2, "")] is 0 where
    [g.get(1, 2, "")] is 5; the copy constructor leaves the member as the
    storage had it. *)
Theorem assign_leaves_no_relationship :
  data (Graph_assign (Graph_new true (F32.of_Z 0)) (Graph_new true (F32.of_Z 5)))
    = data (Graph_new true (F32.of_Z 5)) ∧
  directed (Graph_assign (Graph_new true (F32.of_Z 0)) (Graph_new false (F32.of_Z 5)))
    = false ∧
  get (Graph_new true (F32.of_Z 5)) 1 2 "" = F32.of_Z 5 ∧
  get (Graph_assign (Graph_new true (F32.of_Z 0)) (Graph_new true (F32.of_Z 5))) 1 2 ""
    = F32.of_Z 0 ∧
  F32.of_Z 0 ≠ F32.of_Z 5 ∧
  ∀ uninit g, no_relationship (Graph_copy uninit g) = uninit.
Proof. repeat split; try reflexivity. vm_compute. discriminate. Qed.

(** C2. On the empty graph [keys (1)] dereferences [data.end()]: its result
    is undefined, not the empty set. *)
Theorem keys_of_absent_vertex_undefined : keys_v Graph_default 1 = None.
Proof. reflexivity. Qed.

(** C3, as stated, fails. The invariant that asks equal magnitudes of two
    outward entries holds after [set_dir(1,2,"w",5)], where the mirror is
    not outward, and does not hold after the further [set_dir(2,1,"w",7)]:
    the entry at [(1,2,"w")] is [(true, 5)] and the one at [(2,1,"w")] is
    [(true, 7)]. *)
Lemma set_dir_breaks_equal_magnitudes :
  mirror_equal_inv (data one_way) ∧
  entry (data (exec (OSetDir 2 1 "w" (F32.of_Z 7)) one_way)) 1 2 "w"
    = Some (true, F32.of_Z 5) ∧
  entry (data (exec (OSetDir 2 1 "w" (F32.of_Z 7)) one_way)) 2 1 "w"
    = Some (true, F32.of_Z 7) ∧
  ¬ mirror_equal_inv (data (exec (OSetDir 2 1 "w" (F32.of_Z 7)) one_way)).
Proof.
  split; [|split; [vm_compute; reflexivity|split; [vm_compute; reflexivity|]]].
  - intros i j key m. unfold one_way, set_dir.
    rewrite !entry_set by reflexivity.
    assert (∀ a b k, entry (data Graph_default) a b k = None) as Hnone
      by (intros; unfold entry; simpl; by rewrite lookup_empty).
    rewrite !Hnone.
    destruct (decide (1 = i ∧ 2 = j ∧ "w" = key)) as [(<- & <- & <-)|].
    + intros _. exists (false, F32.of_Z 5). split; [|done].
      vm_compute. reflexivity.
    + by case_decide.
  - intros H. destruct (H 1 2 "w" (F32.of_Z 5)) as ([o m'] & HR & Hm);
      [vm_compute; reflexivity|].
    vm_compute in HR. injection HR as <- <-.
    specialize (Hm eq_refl). vm_compute in Hm. discriminate.
Qed.

(** C3, amended. Every public [set] and [clear] call preserves the mirror
    invariant in which two outward entries hold magnitudes of their own: if,
    before the call, every outward entry at [(i, j, key)] has an entry at
    [(j, i, key)] that holds the same magnitude whenever it is not outward,
    so it is after the call. *)
Theorem mirror_invariant_preserved (o : Op) (g : Graph) :
  mirror_mag_inv (data g) → mirror_mag_inv (data (exec o g)).
Proof. apply mirror_mag_inv_exec. Qed.

Lemma mirror_invariant_preserved_witness :
  mirror_mag_inv (data two_way) ∧
  mirror_mag_inv (data (exec (OClearDirVV 1 2) two_way)).
Proof.
  assert (mirror_mag_inv (data two_way)) as H
    by (apply mirror_mag_invb_spec; vm_compute; reflexivity).
  split; [exact H|]. apply (mirror_invariant_preserved (OClearDirVV 1 2) two_way H).
Defined.

(** C4. After [set_dir(1,2,"w",5)] and [set_dir(2,1,"w",7)], on any graph
    whose sentinel is neither 5 nor 7, [clear_dir(1,2,"w")] demotes the
    entry at [(1,2,"w")] to a mirror of the opposite one:
    [get(2,1,"w")] is 7 and [get(1,2,"w")] is -7. *)
Theorem clear_dir_demotes_two_way (g : Graph) :
  F32.is_no_relationship (no_relationship g) (F32.of_Z 5) = false →
  F32.is_no_relationship (no_relationship g) (F32.of_Z 7) = false →
  let g2 := set_dir (set_dir g 1 2 "w" (F32.of_Z 5)) 2 1 "w" (F32.of_Z 7) in
  let g3 := clear_dir_key g2 1 2 "w" in
  entry (data g2) 1 2 "w" = Some (true, F32.of_Z 5) ∧
  entry (data g2) 2 1 "w" = Some (true, F32.of_Z 7) ∧
  entry (data g3) 1 2 "w" = Some (false, F32.of_Z 7) ∧
  get g3 2 1 "w" = F32.of_Z 7 ∧
  get g3 1 2 "w" = F32.of_Z (-7).
Proof.
  intros H5 H7 g2 g3.
  assert (no_relationship (set g 1 2 "w" false (F32.of_Z 5)) = no_relationship g)
    as Hnr by apply set_config.
  assert (entry (data g2) 1 2 "w" = Some (true, F32.of_Z 5)) as E12.
  { unfold g2, set_dir. rewrite entry_set by (rewrite Hnr; exact H7).
    rewrite decide_False by (intros (? & _); done).
    rewrite decide_True by done. simpl.
    rewrite entry_set by done. by rewrite decide_True. }
  assert (entry (data g2) 2 1 "w" = Some (true, F32.of_Z 7)) as E21.
  { unfold g2, set_dir. rewrite entry_set by (rewrite Hnr; exact H7).
    by rewrite decide_True. }
  assert (entry (data g3) 1 2 "w" = Some (false, F32.of_Z 7)) as F12.
  { unfold g3, clear_dir_key. rewrite entry_clear_key_undir, E12, E21.
    cbn [fst negb]. by rewrite decide_True. }
  assert (entry (data g3) 2 1 "w" = Some (true, F32.of_Z 7)) as F21.
  { unfold g3, clear_dir_key. rewrite entry_clear_key_undir, E12, E21.
    cbn [fst negb]. rewrite decide_False by (intros (? & _); done). done. }
  repeat split; try done.
  - by rewrite get_entry, F21.
  - by rewrite get_entry, F12.
Qed.

Lemma clear_dir_demotes_two_way_witness :
  F32.is_no_relationship (no_relationship Graph_default) (F32.of_Z 5) = false ∧
  F32.is_no_relationship (no_relationship Graph_default) (F32.of_Z 7) = false ∧
  get (clear_dir_key two_way 1 2 "w") 2 1 "w" = F32.of_Z 7 ∧
  get (clear_dir_key two_way 1 2 "w") 1 2 "w" = F32.of_Z (-7).
Proof.
  split; [reflexivity|]. split; [reflexivity|].
  apply (clear_dir_demotes_two_way Graph_default); reflexivity.
Defined.

(** C5. [set_undir(i,j,key,v)] with [v] not within the tolerance of the
    sentinel makes [get(i,j,key)] and [get(j,i,key)] both return [v], on
    any state. The hypothesis is that the test of [set],
    [fabs(v - no_relationship) < 0.0000001], fails; it does whenever
    [fabs(v - no_relationship) >= 0.0000001]
    ([differs_not_no_relationship]). *)
Theorem set_undir_round_trip (g : Graph) (i j : Z) (key : string) (v : float) :
  F32.is_no_relationship (no_relationship g) v = false →
  get (set_undir g i j key v) i j key = v ∧
  get (set_undir g i j key v) j i key = v.
Proof.
  intros Hv. unfold set_undir. rewrite !get_entry, !entry_set by done.
  split.
  - by rewrite decide_True.
  - case_decide; [done|]. by rewrite decide_True.
Qed.

Lemma set_undir_round_trip_witness :
  F32.is_no_relationship (no_relationship Graph_default) (F32.of_Z 5) = false ∧
  get (set_undir Graph_default 1 2 "w" (F32.of_Z 5)) 1 2 "w" = F32.of_Z 5 ∧
  get (set_undir Graph_default 1 2 "w" (F32.of_Z 5)) 2 1 "w" = F32.of_Z 5.
Proof.
  split; [reflexivity|].
  apply (set_undir_round_trip Graph_default 1 2 "w" (F32.of_Z 5)). reflexivity.
Defined.

(** C6, as stated, fails on a self-loop: with no entry at [(1,1,"")],
    [set_dir(1,1,"",5)] makes [get(1,1,"")] return 5, which is both
    [get(i,j,key)] and [get(j,i,key)], and not -5. *)
Lemma set_dir_asymmetry_self_loop :
  F32.is_no_relationship (no_relationship Graph_default) (F32.of_Z 5) = false ∧
  entry (data Graph_default) 1 1 "" = None ∧
  get (set_dir Graph_default 1 1 "" (F32.of_Z 5)) 1 1 "" = F32.of_Z 5 ∧
  get (set_dir Graph_default 1 1 "" (F32.of_Z 5)) 1 1 "" ≠ F32.opp (F32.of_Z 5).
Proof. repeat split; try reflexivity. vm_compute. discriminate. Qed.

(** C6, amended. For distinct vertices [i] and [j], a [float] [v] that is
    not the sentinel and no entry at [(j,i,key)]: after
    [set_dir(i,j,key,v)], [get(i,j,key)] returns [v] and [get(j,i,key)]
    returns [-v]. *)
Theorem set_dir_asymmetry (g : Graph) (i j : Z) (key : string) (v : float) :
  i ≠ j →
  F32.valid v = true →
  F32.is_no_relationship (no_relationship g) v = false →
  entry (data g) j i key = None →
  get (set_dir g i j key v) i j key = v ∧
  get (set_dir g i j key v) j i key = F32.opp v.
Proof.
  intros Hij Hvalid Hv Hnone. unfold set_dir.
  rewrite !get_entry, !entry_set by done. split.
  - by rewrite decide_True.
  - rewrite decide_False by (intros (? & _); done).
    rewrite decide_True by done. rewrite Hnone. simpl.
    by apply neg1_mul_opp.
Qed.

Lemma set_dir_asymmetry_witness :
  (1 ≠ 2 ∧ F32.valid (F32.of_Z 5) = true ∧
   F32.is_no_relationship (no_relationship Graph_default) (F32.of_Z 5) = false ∧
   entry (data Graph_default) 2 1 "w" = None) ∧
  get (set_dir Graph_default 1 2 "w" (F32.of_Z 5)) 1 2 "w" = F32.of_Z 5 ∧
  get (set_dir Graph_default 1 2 "w" (F32.of_Z 5)) 2 1 "w" = F32.of_Z (-5).
Proof.
  split; [repeat split; (lia || reflexivity)|].
  apply (set_dir_asymmetry Graph_default 1 2 "w" (F32.of_Z 5));
    [lia | reflexivity | reflexivity | reflexivity].
Defined.




(** C8, as stated, fails on a self-loop: the entry at [(1,1,"")] is outward
    with magnitude 5, and [set_dir(1,1,"",7)] overwrites it, [(j,i,key)]
    being [(i,j,key)] itself. *)
Lemma set_dir_overwrites_self_loop :
  F32.is_no_relationship (no_relationship self_loop) (F32.of_Z 7) = false ∧
  entry (data self_loop) 1 1 "" = Some (true, F32.of_Z 5) ∧
  entry (data (set_dir self_loop 1 1 "" (F32.of_Z 7))) 1 1 ""
    = Some (true, F32.of_Z 7) ∧
  entry (data (set_dir self_loop 1 1 "" (F32.of_Z 7))) 1 1 ""
    ≠ entry (data self_loop) 1 1 "".
Proof. repeat split; try (vm_compute; reflexivity). vm_compute. discriminate. Qed.

(** C8, amended. For distinct vertices [i] and [j] and [v] not the
    sentinel: when the entry at [(j,i,key)] is outward, [set_dir(i,j,key,v)]
    leaves it as it is, flag and magnitude, and writes [(i,j,key)] outward
    with magnitude [v]. *)
Theorem set_dir_keeps_opposite
    (g : Graph) (i j : Z) (key : string) (v m : float) :
  i ≠ j →
  F32.is_no_relationship (no_relationship g) v = false →
  entry (data g) j i key = Some (true, m) →
  entry (data (set_dir g i j key v)) j i key = Some (true, m) ∧
  entry (data (set_dir g i j key v)) i j key = Some (true, v).
Proof.
  intros Hij Hv Hm. unfold set_dir. rewrite !entry_set by done. split.
  - rewrite decide_False by (intros (? & _); done).
    rewrite decide_True by done. by rewrite Hm.
  - by rewrite decide_True.
Qed.

Lemma set_dir_keeps_opposite_witness :
  (1 ≠ 2 ∧
   F32.is_no_relationship (no_relationship two_way) (F32.of_Z 9) = false ∧
   entry (data two_way) 2 1 "w" = Some (true, F32.of_Z 7)) ∧
  entry (data (set_dir two_way 1 2 "w" (F32.of_Z 9))) 2 1 "w"
    = Some (true, F32.of_Z 7) ∧
  entry (data (set_dir two_way 1 2 "w" (F32.of_Z 9))) 1 2 "w"
    = Some (true, F32.of_Z 9).
Proof.
  split; [repeat split; (lia || (vm_compute; reflexivity))|].
  apply (set_dir_keeps_opposite two_way 1 2 "w" (F32.of_Z 9) (F32.of_Z 7));
    [lia | vm_compute; reflexivity | vm_compute; reflexivity].
Defined.

(** C9. After any sequence of [set] and [clear] calls on a newly
    constructed graph, no map of the table is present and empty: every
    vertex present has a neighbour, every neighbour present has a key. *)
Theorem no_empty_after_any_calls (dir : bool) (x : float) (ops : list Op) :
  no_empty (data (run ops (Graph_new dir x))).
Proof. apply no_empty_run. simpl. apply no_empty_empty. Qed.

(** C10. [clear(1,1,"",false)] does not remove the self-loop that
    [set_dir(1,1,"",5)] wrote: the entry is its own mirror, is found
    outward, and is demoted; it stays in the table with the flag false,
    [get(1,1,"")] returns -5 and the vertex 1 is still there. The
    undirected clear removes it. *)
Theorem clear_dir_keeps_self_loop :
  entry (data self_loop) 1 1 "" = Some (true, F32.of_Z 5) ∧
  get self_loop 1 1 "" = F32.of_Z 5 ∧
  entry (data (clear_key_undir self_loop 1 1 "" false)) 1 1 ""
    = Some (false, F32.of_Z 5) ∧
  get (clear_key_undir self_loop 1 1 "" false) 1 1 "" = F32.of_Z (-5) ∧
  contains_undir_v (clear_key_undir self_loop 1 1 "" false) 1 = true ∧
  vertices (clear_key_undir self_loop 1 1 "" true) = ∅.
Proof. repeat split; vm_compute; reflexivity. Qed.

(* ================================================================== *)
(** ** Further properties of the code *)
(* ================================================================== *)

(** *** Graphs built through the public interface *)

(** X1. On a graph built by [set] and [clear] calls, presence is symmetric:
    [contains_undir(i,j,key)] and [contains_undir(j,i,key)] agree, and so
    do [contains_undir(i,j)] and [contains_undir(j,i)]. *)
Theorem built_contains_undir_symmetric
    (dir : bool) (x : float) (ops : list Op) (i j : Z) (key : string) :
  contains_undir_key (built dir x ops) i j key
    = contains_undir_key (built dir x ops) j i key ∧
  contains_undir_vv (built dir x ops) i j
    = contains_undir_vv (built dir x ops) j i.
Proof. apply built_contains_undir_symmetric_aux. Qed.

(** X2. On a built graph and for two different vertices, an entry at
    [(i,j,key)] that is not outward mirrors an outward entry at
    [(j,i,key)] with the same magnitude: [get(i,j,key)] is
    [-1 * get(j,i,key)]. *)
Theorem built_mirror_only_negates
    (dir : bool) (x : float) (ops : list Op) (i j : Z) (key : string) :
  i ≠ j →
  contains_undir_key (built dir x ops) i j key = true →
  contains_dir_key (built dir x ops) i j key = false →
  contains_dir_key (built dir x ops) j i key = true ∧
  get (built dir x ops) i j key
    = F32.neg1_mul (get (built dir x ops) j i key).
Proof.
  intros Hij Hu Hd. pose proof (partner_inv_built dir x ops) as Hp.
  apply contains_undir_key_true in Hu as [[o m] He].
  assert (o = false) as ->.
  { destruct o; [|done]. assert (contains_dir_key (built dir x ops) i j key
      = true) as H by (apply contains_dir_key_true; eauto). congruence. }
  pose proof (Hp _ _ _ _ Hij He) as He'. split.
  - apply contains_dir_key_true. eauto.
  - by rewrite !get_entry, He, He'.
Qed.

Lemma built_mirror_only_negates_witness :
  (2 ≠ 1 ∧
   contains_undir_key
     (built true (F32.of_Z 0) [OSetDir 1 2 "w" (F32.of_Z 5)]) 2 1 "w" = true ∧
   contains_dir_key
     (built true (F32.of_Z 0) [OSetDir 1 2 "w" (F32.of_Z 5)]) 2 1 "w" = false) ∧
  contains_dir_key
    (built true (F32.of_Z 0) [OSetDir 1 2 "w" (F32.of_Z 5)]) 1 2 "w" = true ∧
  get (built true (F32.of_Z 0) [OSetDir 1 2 "w" (F32.of_Z 5)]) 2 1 "w"
    = F32.neg1_mul
        (get (built true (F32.of_Z 0) [OSetDir 1 2 "w" (F32.of_Z 5)]) 1 2 "w").
Proof.
  split; [repeat split; (lia || (vm_compute; reflexivity))|].
  apply (built_mirror_only_negates true (F32.of_Z 0)
           [OSetDir 1 2 "w" (F32.of_Z 5)] 2 1 "w");
    [lia | vm_compute; reflexivity | vm_compute; reflexivity].
Defined.

(** *** Neighbours *)

(** X3. [nbrs(i)] and [nbrs(i,key)] are defined on every graph; [nbrs(i)]
    is the set of the [n] with [contains_undir(i,n)] and [nbrs(i,key)] the
    set of the [n] with [contains_undir(i,n,key)]. *)
Theorem nbrs_members (g : Graph) (i : Z) (key : string) :
  ∃ A K : gset Z,
    nbrs_all g i = Some A ∧ nbrs_key g i key = Some K ∧
    (∀ n, n ∈ A ↔ contains_undir_vv g i n = true) ∧
    (∀ n, n ∈ K ↔ contains_undir_key g i n key = true).
Proof. apply nbrs_members_aux. Qed.

(** X4. [nbrs_from(i)] and [nbrs_from(i,key)] are defined on every graph;
    they are the sets of the [n] with [contains_dir(i,n)] and with
    [contains_dir(i,n,key)], and [contains_dir(i)] says that the first is
    not empty. *)
Theorem nbrs_from_members (g : Graph) (i : Z) (key : string) :
  ∃ F K : gset Z,
    nbrs_from g i = Some F ∧ nbrs_from_key g i key = Some K ∧
    (∀ n, n ∈ F ↔ contains_dir_vv g i n = true) ∧
    (∀ n, n ∈ K ↔ contains_dir_key g i n key = true) ∧
    (contains_dir_v g i = true ↔ ∃ n, n ∈ F).
Proof. apply nbrs_from_members_aux. Qed.

(** X5. On a built graph [nbrs_to(i)] and [nbrs_to(i,key)] are defined (the
    unguarded [find] chain of [nbrs] always finds its entry): [n] is in
    [nbrs_to(i,key)] when there is an entry at [(i,n,key)] that is not
    outward, or is outward with [contains_dir(n,i,key)]. *)
Theorem built_nbrs_to_members
    (dir : bool) (x : float) (ops : list Op) (i : Z) (key : string) :
  ∃ T K : gset Z,
    nbrs_to (built dir x ops) i = Some T ∧
    nbrs_to_key (built dir x ops) i key = Some K ∧
    (∀ n, n ∈ T ↔ ∃ k : string,
       contains_undir_key (built dir x ops) i n k = true ∧
       (contains_dir_key (built dir x ops) i n k = false ∨
        contains_dir_key (built dir x ops) n i k = true)) ∧
    (∀ n, n ∈ K ↔
       contains_undir_key (built dir x ops) i n key = true ∧
       (contains_dir_key (built dir x ops) i n key = false ∨
        contains_dir_key (built dir x ops) n i key = true)).
Proof. apply built_nbrs_to_members_aux. Qed.

(** X6. On a built graph and for two different vertices, [j] is a
    neighbour from [i] exactly when [i] is a neighbour to [j], for one key
    and for all keys. *)
Theorem built_nbrs_from_to_dual
    (dir : bool) (x : float) (ops : list Op) (i j : Z) (key : string) :
  i ≠ j →
  ∃ F T FK TK : gset Z,
    nbrs_from (built dir x ops) i = Some F ∧
    nbrs_to (built dir x ops) j = Some T ∧
    nbrs_from_key (built dir x ops) i key = Some FK ∧
    nbrs_to_key (built dir x ops) j key = Some TK ∧
    (j ∈ F ↔ i ∈ T) ∧ (j ∈ FK ↔ i ∈ TK).
Proof.
  intros Hij.
  pose proof (sym_inv_built dir x ops) as Hs.
  pose proof (partner_inv_built dir x ops) as Hp.
  destruct (nbrs_from_members_aux (built dir x ops) i key)
    as (F & FK & HF & HFK & HFm & HFKm & _).
  destruct (built_nbrs_to_members_aux dir x ops j key)
    as (T & TK & HT & HTK & HTm & HTKm).
  set (g := built dir x ops) in *.
  assert (∀ k, contains_dir_key g i j k = true ↔
    contains_undir_key g j i k = true ∧
    (contains_dir_key g j i k = false ∨ contains_dir_key g i j k = true))
    as Hdual.
  { intros k. split.
    - intros Hd. split; [|by right].
      apply contains_undir_key_true, Hs.
      apply contains_dir_key_true in Hd as [m Hm]. by rewrite Hm.
    - intros ([[o m] He]%contains_undir_key_true & [Hd|Hd]); [|done].
      destruct o.
      + assert (contains_dir_key g j i k = true) as H
          by (apply contains_dir_key_true; eauto). congruence.
      + apply contains_dir_key_true. exists m. apply Hp; [done|exact He]. }
  exists F, T, FK, TK. repeat (split; [done|]). split.
  - rewrite HFm, HTm, contains_dir_vv_true. split.
    + intros (k & m & Hm). exists k. apply Hdual.
      apply contains_dir_key_true. eauto.
    + intros (k & Hk). apply Hdual in Hk.
      apply contains_dir_key_true in Hk as [m Hm]. eauto.
  - rewrite HFKm, HTKm. apply Hdual.
Qed.

Lemma built_nbrs_from_to_dual_witness :
  1 ≠ 2 ∧
  ∃ F T FK TK : gset Z,
    nbrs_from (built true (F32.of_Z 0) [OSetDir 1 2 "w" (F32.of_Z 5)]) 1
      = Some F ∧
    nbrs_to (built true (F32.of_Z 0) [OSetDir 1 2 "w" (F32.of_Z 5)]) 2
      = Some T ∧
    nbrs_from_key (built true (F32.of_Z 0) [OSetDir 1 2 "w" (F32.of_Z 5)]) 1 "w"
      = Some FK ∧
    nbrs_to_key (built true (F32.of_Z 0) [OSetDir 1 2 "w" (F32.of_Z 5)]) 2 "w"
      = Some TK ∧
    (2 ∈ F ↔ 1 ∈ T) ∧ (2 ∈ FK ↔ 1 ∈ TK).
Proof.
  split; [lia|].
  apply (built_nbrs_from_to_dual true (F32.of_Z 0)
           [OSetDir 1 2 "w" (F32.of_Z 5)] 1 2 "w"). lia.
Defined.

(** X7. On a built graph, [j] is in [nbrs(i)] exactly when [i] is in
    [nbrs(j)]. *)
Theorem built_nbrs_symmetric
    (dir : bool) (x : float) (ops : list Op) (i j : Z) :
  ∃ A B : gset Z,
    nbrs_all (built dir x ops) i = Some A ∧
    nbrs_all (built dir x ops) j = Some B ∧
    (j ∈ A ↔ i ∈ B).
Proof.
  destruct (nbrs_members_aux (built dir x ops) i "") as (A & _ & HA & _ & HAm & _).
  destruct (nbrs_members_aux (built dir x ops) j "") as (B & _ & HB & _ & HBm & _).
  exists A, B. split; [done|]. split; [done|].
  rewrite HAm, HBm.
  by destruct (built_contains_undir_symmetric_aux dir x ops i j "") as [_ ->].
Qed.

(** *** Vertices and keys *)

(** X8. On a built graph the vertices are the [i] with [contains_undir(i)],
    which are the [i] with some [contains_undir(i,n)]; both ends of every
    relationship are vertices, and [size()] counts the vertices. *)
Theorem built_vertices
    (dir : bool) (x : float) (ops : list Op) (i j : Z) :
  (i ∈ vertices (built dir x ops) ↔
     contains_undir_v (built dir x ops) i = true) ∧
  (contains_undir_v (built dir x ops) i = true ↔
     ∃ n, contains_undir_vv (built dir x ops) i n = true) ∧
  (contains_undir_vv (built dir x ops) i j = true →
     i ∈ vertices (built dir x ops) ∧ j ∈ vertices (built dir x ops)) ∧
  size_ (built dir x ops) = size (vertices (built dir x ops)).
Proof.
  set (g := built dir x ops).
  pose proof (no_empty_built dir x ops) as Hne. fold g in Hne.
  pose proof (sym_inv_built dir x ops) as Hs. fold g in Hs.
  assert (∀ a, a ∈ vertices g ↔ ∃ n, contains_undir_vv g a n = true) as Hv.
  { intros a. unfold vertices. rewrite elem_of_dom. split.
    - intros [V HV]. destruct Hne as [Hv Hn].
      destruct (map_choose V (Hv a V HV)) as (b & N & Hb).
      destruct (map_choose N (Hn a V b N HV Hb)) as (k & R & Hk).
      exists b. apply contains_undir_vv_true. exists k, R.
      unfold entry. by rewrite HV, Hb.
    - intros (n & (k & R & HR)%contains_undir_vv_true).
      unfold entry in HR. destruct (data g !! a); [eauto|done]. }
  assert (∀ a, contains_undir_v g a = true ↔ a ∈ vertices g) as Hc.
  { intros a. unfold contains_undir_v, vertices. rewrite elem_of_dom.
    destruct (data g !! a) as [V|] eqn:HV.
    - rewrite Nat.ltb_lt. split; [eauto|]. intros _.
      destruct Hne as [Hv' _]. assert (size V ≠ 0%nat); [|lia].
      apply map_size_non_empty_iff. by apply (Hv' a).
    - split; [done|]. by intros ?%is_Some_None. }
  split; [by rewrite Hc|]. split; [by rewrite Hc|]. split.
  - intros Hij. split; apply Hv; [eauto|].
    exists i.
    destruct (built_contains_undir_symmetric_aux dir x ops j i "") as [_ Hsym].
    fold g in Hsym. by rewrite Hsym.
  - unfold size_, vertices. by rewrite size_dom.
Qed.

(** X9. [keys()] is the set of the keys under which some pair has an
    entry, on every graph. *)
Theorem keys_members (g : Graph) (k : string) :
  k ∈ keys g ↔ ∃ i j, contains_undir_key g i j k = true.
Proof.
  rewrite elem_of_keys. split; intros (i & j & H); exists i, j;
    by apply contains_undir_key_true.
Qed.

(** X10. [keys(i,j)] is the set of the keys with an entry at [(i,j)], empty
    when there is none. [keys(i)] is defined exactly when [i] is in
    [vertices()], and is then the set of the keys under which [i] has an
    entry to some neighbour. *)
Theorem keys_of_vertex_and_pair (g : Graph) (i j : Z) :
  (∀ k, k ∈ keys_vv g i j ↔ contains_undir_key g i j k = true) ∧
  match keys_v g i with
  | Some K =>
      i ∈ vertices g ∧
      ∀ k, k ∈ K ↔ ∃ n, contains_undir_key g i n k = true
  | None => i ∉ vertices g
  end.
Proof.
  split.
  - intros k. rewrite contains_undir_key_true. apply elem_of_keys_vv.
  - unfold keys_v, vertices.
    destruct (data g !! i) as [V|] eqn:HV;
      [|rewrite elem_of_dom, HV; by intros ?%is_Some_None].
    split; [rewrite elem_of_dom; eauto|].
    intros k. rewrite elem_of_keys_of_vertex. split.
    + intros (n & N & Hn & HN). exists n. apply contains_undir_key_true.
      unfold entry. by rewrite HV, Hn.
    + intros (n & Hn%contains_undir_key_true). unfold entry in Hn.
      rewrite HV in Hn. destruct (V !! n) as [N|] eqn:HN;
        [eauto|by apply is_Some_None in Hn].
Qed.

(* ------------------------------------------------------------------ *)
(** *** What [set] touches and what it leaves *)

(** X11. [set(i,j,key,undir,x)], whatever [x], changes no other place of
    the table than [(i,j,key)] and [(j,i,key)]: [get] at any other place
    returns what it returned before. *)
Theorem set_frame
    (g : Graph) (i j : Z) (key : string) (undir : bool) (x : float)
    (a b : Z) (k : string) :
  ¬ (a = i ∧ b = j ∧ k = key) → ¬ (a = j ∧ b = i ∧ k = key) →
  entry (data (set g i j key undir x)) a b k = entry (data g) a b k ∧
  get (set g i j key undir x) a b k = get g a b k.
Proof.
  intros H1 H2.
  assert (entry (data (set g i j key undir x)) a b k = entry (data g) a b k)
    as He.
  { apply set_frame_entry; intros (-> & -> & ->); [apply H1|apply H2]; done. }
  split; [done|]. by rewrite !get_entry, He, nr_set.
Qed.

Lemma set_frame_witness :
  (¬ (1 = 1 ∧ 2 = 2 ∧ "w" = "v") ∧ ¬ (1 = 2 ∧ 2 = 1 ∧ "w" = "v")) ∧
  get (set two_way 1 2 "v" false (F32.of_Z 9)) 1 2 "w" = get two_way 1 2 "w".
Proof.
  split; [split; intros (_ & _ & ?); discriminate|].
  apply (set_frame two_way 1 2 "v" false (F32.of_Z 9) 1 2 "w");
    intros (_ & _ & ?); discriminate.
Defined.

(** X12. After [set(i,j,key,undir,x)] with [x] not the sentinel,
    [contains_dir(i,j,key)] and [contains_undir(j,i,key)] hold and both
    [i] and [j] are vertices. *)
Theorem set_makes_present
    (g : Graph) (i j : Z) (key : string) (undir : bool) (x : float) :
  F32.is_no_relationship (no_relationship g) x = false →
  contains_dir_key (set g i j key undir x) i j key = true ∧
  contains_undir_key (set g i j key undir x) j i key = true ∧
  i ∈ vertices (set g i j key undir x) ∧
  j ∈ vertices (set g i j key undir x).
Proof.
  intros Hx.
  assert (entry (data (set g i j key undir x)) i j key = Some (true, x)) as E1.
  { rewrite entry_set by done. by rewrite decide_True. }
  assert (is_Some (entry (data (set g i j key undir x)) j i key)) as E2.
  { rewrite entry_set by done. case_decide; [done|].
    rewrite decide_True by done. destruct undir; [done|].
    by destruct (entry (data g) j i key) as [[[|] ?]|]. }
  split; [apply contains_dir_key_true; eauto|].
  split; [by apply contains_undir_key_true|].
  split; [apply (entry_vertex _ i j key); by rewrite E1|].
  by apply (entry_vertex _ j i key).
Qed.

Lemma set_makes_present_witness :
  F32.is_no_relationship (no_relationship Graph_default) (F32.of_Z 5) = false ∧
  contains_dir_key (set Graph_default 1 2 "w" false (F32.of_Z 5)) 1 2 "w" = true ∧
  contains_undir_key (set Graph_default 1 2 "w" false (F32.of_Z 5)) 2 1 "w" = true ∧
  1 ∈ vertices (set Graph_default 1 2 "w" false (F32.of_Z 5)) ∧
  2 ∈ vertices (set Graph_default 1 2 "w" false (F32.of_Z 5)).
Proof.
  split; [reflexivity|].
  apply (set_makes_present Graph_default 1 2 "w" false (F32.of_Z 5)).
  reflexivity.
Defined.

(** X13. No [set] and no [clear] changes [directed] or [no_relationship]. *)
Theorem mutations_keep_configuration (o : Op) (g : Graph) :
  directed (exec o g) = directed g ∧
  no_relationship (exec o g) = no_relationship g.
Proof. apply exec_config. Qed.

(** X14. A [clear], whichever overload, creates no relationship: what
    [contains_undir] finds after it was there before it; and what
    [contains_dir] finds after it was outward before it with the value
    [get] still returns. *)
Theorem clear_only_removes (o : Op) (g : Graph) (a b : Z) (k : string) :
  is_clear o = true →
  (contains_undir_key (exec o g) a b k = true →
     contains_undir_key g a b k = true) ∧
  (contains_dir_key (exec o g) a b k = true →
     contains_dir_key g a b k = true ∧ get (exec o g) a b k = get g a b k).
Proof.
  intros Hc. pose proof (shrinks_exec o g Hc) as Hs. split.
  - intros [R HR]%contains_undir_key_true.
    destruct (Hs _ _ _ _ HR) as (R0 & HR0 & _).
    apply contains_undir_key_true. by rewrite HR0.
  - intros [m Hm]%contains_dir_key_true.
    destruct (Hs _ _ _ _ Hm) as (R0 & HR0 & E). rewrite (E eq_refl) in HR0.
    split; [apply contains_dir_key_true; eauto|].
    by rewrite !get_entry, Hm, HR0.
Qed.

Lemma clear_only_removes_witness :
  is_clear (OClearDirKey 1 2 "w") = true ∧
  (contains_undir_key (exec (OClearDirKey 1 2 "w") two_way) 2 1 "w" = true →
     contains_undir_key two_way 2 1 "w" = true) ∧
  (contains_dir_key (exec (OClearDirKey 1 2 "w") two_way) 2 1 "w" = true →
     contains_dir_key two_way 2 1 "w" = true ∧
     get (exec (OClearDirKey 1 2 "w") two_way) 2 1 "w" = get two_way 2 1 "w").
Proof.
  split; [reflexivity|].
  apply (clear_only_removes (OClearDirKey 1 2 "w") two_way 2 1 "w").
  reflexivity.
Defined.

(** X15. On a built graph with no entry at [(i,j,key)], writing a value
    that is not the sentinel and clearing it in the same mode gives the
    graph back, table and configuration; for the directed mode [i] and
    [j] have to differ. *)
Theorem set_then_clear_restores
    (dir : bool) (x : float) (ops : list Op)
    (i j : Z) (key : string) (undir : bool) (v : float) :
  F32.is_no_relationship (no_relationship (built dir x ops)) v = false →
  contains_undir_key (built dir x ops) i j key = false →
  undir = true ∨ i ≠ j →
  clear_key_undir (set (built dir x ops) i j key undir v) i j key undir
    = built dir x ops.
Proof.
  intros Hv Hc Hmode.
  pose proof (no_empty_built dir x ops) as Hne.
  pose proof (sym_inv_built dir x ops) as Hs.
  set (g := built dir x ops) in *.
  apply contains_undir_key_false in Hc.
  pose proof (sym_inv_None _ _ _ _ Hs Hc) as Hc'.
  apply Graph_entry_ext.
  - by apply no_empty_clear_key_undir, no_empty_set.
  - done.
  - destruct (clear_key_undir_config (set g i j key undir v) i j key undir)
      as [-> _]. apply set_config.
  - by rewrite nr_clear_key_undir, nr_set.
  - intros a b k. rewrite entry_clear_key_undir, !entry_set by done.
    rewrite decide_True by done. rewrite Hc'.
    destruct undir; cbn [fst negb].
    + place_cases.
    + destruct Hmode as [?|Hij]; [done|].
      rewrite (decide_False (P := i = j ∧ j = i ∧ key = key))
        by (intros (? & _); done).
      rewrite decide_True by done. cbn [fst negb].
      place_cases.
Qed.

Lemma set_then_clear_restores_witness :
  (F32.is_no_relationship
     (no_relationship (built true (F32.of_Z 0) [OSetDir 1 2 "w" (F32.of_Z 5)]))
     (F32.of_Z 7) = false ∧
   contains_undir_key
     (built true (F32.of_Z 0) [OSetDir 1 2 "w" (F32.of_Z 5)]) 2 3 "w" = false ∧
   (false = true ∨ 2 ≠ 3)) ∧
  clear_key_undir
    (set (built true (F32.of_Z 0) [OSetDir 1 2 "w" (F32.of_Z 5)])
         2 3 "w" false (F32.of_Z 7)) 2 3 "w" false
  = built true (F32.of_Z 0) [OSetDir 1 2 "w" (F32.of_Z 5)].
Proof.
  split; [repeat split; try (vm_compute; reflexivity); right; lia|].
  apply (set_then_clear_restores true (F32.of_Z 0)
           [OSetDir 1 2 "w" (F32.of_Z 5)] 2 3 "w" false (F32.of_Z 7));
    [vm_compute; reflexivity | vm_compute; reflexivity | right; lia].
Defined.

(** X16. On a built graph, of two writes to the same place in the same
    mode, with values that are not the sentinel, the second is the one that
    counts: the result is the graph the second write alone gives. *)
Theorem set_last_write_wins
    (dir : bool) (x : float) (ops : list Op)
    (i j : Z) (key : string) (undir : bool) (v w : float) :
  F32.is_no_relationship (no_relationship (built dir x ops)) v = false →
  F32.is_no_relationship (no_relationship (built dir x ops)) w = false →
  set (set (built dir x ops) i j key undir v) i j key undir w
    = set (built dir x ops) i j key undir w.
Proof.
  intros Hv Hw. pose proof (no_empty_built dir x ops) as Hne.
  set (g := built dir x ops) in *.
  apply Graph_entry_ext.
  - by do 2 apply no_empty_set.
  - by apply no_empty_set.
  - destruct (set_config (set g i j key undir v) i j key undir w) as [-> _].
    destruct (set_config g i j key undir v) as [-> _].
    by destruct (set_config g i j key undir w) as [-> _].
  - by rewrite !nr_set.
  - intros a b k. rewrite !entry_set by (by rewrite ?nr_set).
    destruct (decide (i = a ∧ j = b ∧ key = k)); [done|].
    destruct (decide (j = a ∧ i = b ∧ key = k)); [|done].
    destruct undir; [done|].
    destruct (decide (i = j ∧ j = i ∧ key = key)) as [(-> & _)|];
      [exfalso; intuition congruence|].
    rewrite decide_True by done.
    by destruct (entry (data g) j i key) as [[[|] ?]|].
Qed.

Lemma set_last_write_wins_witness :
  (F32.is_no_relationship
     (no_relationship (built true (F32.of_Z 0) [OSetDir 1 2 "w" (F32.of_Z 5)]))
     (F32.of_Z 7) = false ∧
   F32.is_no_relationship
     (no_relationship (built true (F32.of_Z 0) [OSetDir 1 2 "w" (F32.of_Z 5)]))
     (F32.of_Z 9) = false) ∧
  set (set (built true (F32.of_Z 0) [OSetDir 1 2 "w" (F32.of_Z 5)])
           2 1 "w" false (F32.of_Z 7)) 2 1 "w" false (F32.of_Z 9)
  = set (built true (F32.of_Z 0) [OSetDir 1 2 "w" (F32.of_Z 5)])
        2 1 "w" false (F32.of_Z 9).
Proof.
  split; [split; vm_compute; reflexivity|].
  apply (set_last_write_wins true (F32.of_Z 0)
           [OSetDir 1 2 "w" (F32.of_Z 5)] 2 1 "w" false (F32.of_Z 7)
           (F32.of_Z 9)); vm_compute; reflexivity.
Defined.

(** X17. On a built graph, two writes of values that are not the sentinel
    to places that are neither the same nor mirrored give the same graph in
    either order. *)
Theorem sets_commute
    (dir : bool) (x : float) (ops : list Op)
    (i j : Z) (key : string) (u : bool) (v : float)
    (i' j' : Z) (key' : string) (u' : bool) (v' : float) :
  F32.is_no_relationship (no_relationship (built dir x ops)) v = false →
  F32.is_no_relationship (no_relationship (built dir x ops)) v' = false →
  ¬ (i = i' ∧ j = j' ∧ key = key') →
  ¬ (i = j' ∧ j = i' ∧ key = key') →
  set (set (built dir x ops) i j key u v) i' j' key' u' v'
    = set (set (built dir x ops) i' j' key' u' v') i j key u v.
Proof.
  intros Hv Hv' Hsame Hmirror. pose proof (no_empty_built dir x ops) as Hne.
  set (g := built dir x ops) in *.
  assert (entry (data (set g i j key u v)) j' i' key' = entry (data g) j' i' key')
    as E1 by (apply set_frame_entry; intros (? & ? & ?); subst;
              first [by apply Hsame | by apply Hmirror]).
  assert (entry (data (set g i' j' key' u' v')) j i key = entry (data g) j i key)
    as E2 by (apply set_frame_entry; intros (? & ? & ?); subst;
              first [by apply Hsame | by apply Hmirror]).
  apply Graph_entry_ext.
  - by do 2 apply no_empty_set.
  - by do 2 apply no_empty_set.
  - destruct (set_config (set g i j key u v) i' j' key' u' v') as [-> _].
    destruct (set_config (set g i' j' key' u' v') i j key u v) as [-> _].
    destruct (set_config g i j key u v) as [-> _].
    by destruct (set_config g i' j' key' u' v') as [-> _].
  - by rewrite !nr_set.
  - intros a b k.
    rewrite (entry_set (set g i j key u v)) by (by rewrite nr_set).
    rewrite (entry_set (set g i' j' key' u' v')) by (by rewrite nr_set).
    rewrite E1, E2. rewrite !entry_set by done.
    destruct (decide (i' = a ∧ j' = b ∧ key' = k)) as [(-> & -> & ->)|].
    { rewrite !decide_False; [done|..]; intros (? & ? & ?); subst;
        first [by apply Hsame | by apply Hmirror]. }
    destruct (decide (j' = a ∧ i' = b ∧ key' = k)) as [(-> & -> & ->)|].
    { rewrite !decide_False; [done|..]; intros (? & ? & ?); subst;
        first [by apply Hsame | by apply Hmirror]. }
    done.
Qed.

Lemma sets_commute_witness :
  (F32.is_no_relationship
     (no_relationship (built true (F32.of_Z 0) [OSetDir 1 2 "w" (F32.of_Z 5)]))
     (F32.of_Z 7) = false ∧
   F32.is_no_relationship
     (no_relationship (built true (F32.of_Z 0) [OSetDir 1 2 "w" (F32.of_Z 5)]))
     (F32.of_Z 9) = false ∧
   ¬ (1 = 2 ∧ 2 = 3 ∧ "w" = "w") ∧ ¬ (1 = 3 ∧ 2 = 2 ∧ "w" = "w")) ∧
  set (set (built true (F32.of_Z 0) [OSetDir 1 2 "w" (F32.of_Z 5)])
           1 2 "w" true (F32.of_Z 7)) 2 3 "w" false (F32.of_Z 9)
  = set (set (built true (F32.of_Z 0) [OSetDir 1 2 "w" (F32.of_Z 5)])
             2 3 "w" false (F32.of_Z 9)) 1 2 "w" true (F32.of_Z 7).
Proof.
  split; [repeat split; try (vm_compute; reflexivity); lia|].
  apply (sets_commute true (F32.of_Z 0) [OSetDir 1 2 "w" (F32.of_Z 5)]
           1 2 "w" true (F32.of_Z 7) 2 3 "w" false (F32.of_Z 9));
    [vm_compute; reflexivity | vm_compute; reflexivity | lia | lia].
Defined.

(* ------------------------------------------------------------------ *)
(** *** What the [clear] overloads remove *)

(** X18. On a built graph [clear(i)] removes every entry from [i] and every
    entry to [i], leaves every other entry as it is, and [i] is no vertex
    afterwards. *)
Theorem built_clear_vertex
    (dir : bool) (x : float) (ops : list Op) (i : Z) :
  (∀ a b k,
     entry (data (clear_v (built dir x ops) i)) a b k =
     if decide (a = i ∨ b = i) then None
     else entry (data (built dir x ops)) a b k) ∧
  i ∉ vertices (clear_v (built dir x ops) i).
Proof.
  pose proof (no_empty_built dir x ops) as Hne.
  pose proof (sym_inv_built dir x ops) as Hs.
  set (g := built dir x ops) in *.
  assert (∀ a b k,
     entry (data (clear_v g i)) a b k =
     if decide (a = i ∨ b = i) then None else entry (data g) a b k) as He.
  { destruct (contains_undir_v g i) eqn:Hc.
    - destruct (entry_clear_v g i Hc) as (N & HN & HeN).
      intros a b k. rewrite HeN.
      destruct (decide (a = i ∨ b = i)) as [Hab|Hab].
      + case_decide as H1; [done|].
        destruct Hab as [-> | ->]; [exfalso; apply H1; by left|].
        destruct (entry (data g) a i k) as [R|] eqn:HR; [|done].
        exfalso. apply H1. right. split; [done|]. apply HN.
        destruct (Hs a i k) as [R' HR']; [by rewrite HR|]. eauto.
      + rewrite decide_False; [done|]. intros [->|[-> _]]; apply Hab; auto.
    - rewrite (clear_v_absent g i Hc). intros a b k.
      assert (∀ b k, entry (data g) i b k = None) as Hi.
      { intros b' k'. unfold contains_undir_v in Hc. unfold entry.
        destruct (data g !! i) as [V|] eqn:HV; [|done].
        apply Nat.ltb_ge in Hc. assert (size V = 0%nat) as Hz by lia.
        apply map_size_empty_iff in Hz. subst V. by rewrite lookup_empty. }
      case_decide as Hab; [|done].
      destruct Hab as [-> | ->]; [by rewrite Hi|].
      by rewrite (sym_inv_None _ _ _ _ Hs (Hi a k)). }
  split; [exact He|].
  unfold vertices. rewrite elem_of_dom.
  rewrite (no_empty_vertex_absent (data (clear_v g i)) i).
  - by intros ?%is_Some_None.
  - by apply no_empty_clear_v.
  - intros b k. rewrite He. by rewrite decide_True by auto.
Qed.

(** X19. On a built graph [clear_undir(i,j)] removes every entry at
    [(i,j)] and at [(j,i)], under every key, and nothing else. *)
Theorem built_clear_undir_pair
    (dir : bool) (x : float) (ops : list Op) (i j a b : Z) (k : string) :
  entry (data (clear_undir_vv (built dir x ops) i j)) a b k =
  if decide ((a = i ∧ b = j) ∨ (a = j ∧ b = i)) then None
  else entry (data (built dir x ops)) a b k.
Proof.
  pose proof (sym_inv_built dir x ops) as Hs.
  set (g := built dir x ops) in *.
  rewrite entry_clear_undir_vv.
  destruct (contains_undir_vv g i j) eqn:Hc.
  - apply decide_ext. intuition congruence.
  - assert (∀ k', entry (data g) i j k' = None) as Hij.
    { intros k'. destruct (entry (data g) i j k') as [R|] eqn:HR; [|done].
      assert (contains_undir_vv g i j = true) as H
        by (apply contains_undir_vv_true; eauto). congruence. }
    case_decide as Hab; [|done].
    destruct Hab as [[-> ->]| [-> ->]]; [apply Hij|].
    apply (sym_inv_None _ _ _ _ Hs (Hij k)).
Qed.

(** X20. [clear(key)] removes every entry under [key] and no other, on
    every graph, and [key] is not in [keys()] afterwards. *)
Theorem clear_key_everywhere (g : Graph) (key : string) :
  (∀ a b k,
     entry (data (clear_k g key)) a b k =
     if decide (k = key) then None else entry (data g) a b k) ∧
  key ∉ keys (clear_k g key).
Proof.
  split.
  - intros a b k. rewrite entry_clear_k. apply decide_ext. split; congruence.
  - rewrite elem_of_keys. intros (i & j & H).
    rewrite entry_clear_k, decide_True in H by done.
    by apply is_Some_None in H.
Qed.

(** X21. [clear_dir(i,j)] leaves at each place under each key what
    [clear_dir(i,j,key)] leaves there, on every graph. *)
Theorem clear_dir_pair_key_by_key (g : Graph) (i j a b : Z) (k : string) :
  entry (data (clear_dir_vv g i j)) a b k =
    entry (data (clear_dir_key g i j k)) a b k ∧
  get (clear_dir_vv g i j) a b k = get (clear_dir_key g i j k) a b k.
Proof.
  pose proof (entry_clear_dir_vv g i j a b k) as He. split; [done|].
  rewrite !get_entry, He. unfold clear_dir_key.
  rewrite nr_clear_key_undir.
  destruct (exec_config (OClearDirVV i j) g) as [_ Hnr]. simpl in Hnr.
  by rewrite Hnr.
Qed.

(** X22. [clear_dir(i,key)] and [clear_undir(i,key)] leave at the places
    between [i] and a vertex [n] what [clear_dir(i,n,key)] and
    [clear_undir(i,n,key)] leave there, and change no other place, on
    every graph. *)
Theorem clear_vertex_key_per_neighbour
    (g : Graph) (i : Z) (key : string) (a b : Z) (k : string) :
  entry (data (clear_dir_vk g i key)) a b k =
    (if decide (a = i) then entry (data (clear_dir_key g i b key)) a b k
     else if decide (b = i) then entry (data (clear_dir_key g i a key)) a b k
     else entry (data g) a b k) ∧
  entry (data (clear_undir_vk g i key)) a b k =
    (if decide (a = i) then entry (data (clear_undir_key g i b key)) a b k
     else if decide (b = i) then entry (data (clear_undir_key g i a key)) a b k
     else entry (data g) a b k).
Proof.
  destruct (nbrs_members_aux g i key) as (A & K & HA & HK & HAm & HKm).
  assert (∀ n undir, contains_undir_key g i n key = false →
            clear_key_undir g i n key undir = g) as Hnoop.
  { intros n undir Hc. apply clear_key_undir_absent.
    by apply contains_undir_key_false. }
  assert (∀ n, n ∉ A → contains_undir_key g i n key = false) as HAout.
  { intros n Hn. destruct (contains_undir_key g i n key) eqn:Hc; [|done].
    exfalso. apply Hn, HAm, contains_undir_vv_true.
    apply contains_undir_key_true in Hc as [R HR]. eauto. }
  assert (∀ n, n ∉ K → contains_undir_key g i n key = false) as HKout.
  { intros n Hn. destruct (contains_undir_key g i n key) eqn:Hc; [|done].
    exfalso. by apply Hn, HKm. }
  split.
  - unfold clear_dir_vk, clear_dir_key. rewrite HA. rewrite entry_clear_vk_fold.
    destruct (decide (a = i)) as [->|Ha].
    + destruct (decide (b ∈ A)) as [Hb|Hb].
      * by rewrite decide_True.
      * rewrite (decide_False (P := i = i ∧ b ∈ A)) by tauto.
        rewrite (Hnoop b false (HAout b Hb)).
        case_decide as H2; [|done]. destruct H2 as [-> ?]. done.
    + rewrite (decide_False (P := a = i ∧ b ∈ A)) by tauto.
      destruct (decide (b = i)) as [->|Hb]; [|by rewrite decide_False by tauto].
      destruct (decide (a ∈ A)) as [Ha'|Ha'].
      * by rewrite decide_True.
      * rewrite decide_False by tauto. by rewrite (Hnoop a false (HAout a Ha')).
  - unfold clear_undir_vk, clear_undir_key. fold (nbrs_key g i key).
    rewrite HK. rewrite entry_clear_vk_fold.
    destruct (decide (a = i)) as [->|Ha].
    + destruct (decide (b ∈ K)) as [Hb|Hb].
      * by rewrite decide_True.
      * rewrite (decide_False (P := i = i ∧ b ∈ K)) by tauto.
        rewrite (Hnoop b true (HKout b Hb)).
        case_decide as H2; [|done]. destruct H2 as [-> ?]. done.
    + rewrite (decide_False (P := a = i ∧ b ∈ K)) by tauto.
      destruct (decide (b = i)) as [->|Hb]; [|by rewrite decide_False by tauto].
      destruct (decide (a ∈ K)) as [Ha'|Ha'].
      * by rewrite decide_True.
      * rewrite decide_False by tauto. by rewrite (Hnoop a true (HKout a Ha')).
Qed.

(** X23. On a vertex that is not in the graph every [clear] overload that
    names it returns the graph as it is. *)
Theorem clear_absent_vertex (g : Graph) (i j : Z) (key : string) :
  i ∉ vertices g →
  (∀ undir, clear_key_undir g i j key undir = g) ∧
  clear_dir_vv g i j = g ∧ clear_undir_vv g i j = g ∧
  clear_dir_vk g i key = g ∧ clear_undir_vk g i key = g ∧
  clear_v g i = g.
Proof.
  unfold vertices. rewrite not_elem_of_dom. intros Hi.
  assert (∀ b k, entry (data g) i b k = None) as He
    by (intros b k; unfold entry; by rewrite Hi).
  split; [intros undir; by apply clear_key_undir_absent|].
  split.
  { unfold clear_dir_vv.
    destruct (contains_absent_vertex g i j Hi) as [-> _]. done. }
  split.
  { unfold clear_undir_vv, contains_undir_vv. by rewrite Hi. }
  split.
  { unfold clear_dir_vk, nbrs_all. rewrite (nbrs_absent_vertex g i _ _ _ Hi).
    apply set_fold_empty. }
  split.
  { unfold clear_undir_vk. rewrite (nbrs_absent_vertex g i _ _ _ Hi).
    apply set_fold_empty. }
  unfold clear_v, contains_undir_v. by rewrite Hi.
Qed.

Lemma clear_absent_vertex_witness :
  (3 ∉ vertices two_way) ∧
  clear_dir_vv two_way 3 1 = two_way ∧ clear_v two_way 3 = two_way.
Proof.
  assert (3 ∉ vertices two_way) as H.
  { unfold vertices. apply not_elem_of_dom. vm_compute. reflexivity. }
  split; [exact H|].
  destruct (clear_absent_vertex two_way 3 1 "w" H) as (_ & H1 & _ & _ & _ & H2).
  split; [exact H1|exact H2].
Defined.

(** X24. On a built graph, clearing a relationship twice in the same mode
    gives the graph that clearing it once gives. *)
Theorem built_clear_idempotent
    (dir : bool) (x : float) (ops : list Op)
    (i j : Z) (key : string) (undir : bool) :
  clear_key_undir (clear_key_undir (built dir x ops) i j key undir)
                  i j key undir
  = clear_key_undir (built dir x ops) i j key undir.
Proof.
  pose proof (no_empty_built dir x ops) as Hne.
  set (g := built dir x ops) in *.
  apply Graph_entry_ext.
  - by do 2 apply no_empty_clear_key_undir.
  - by apply no_empty_clear_key_undir.
  - by destruct (clear_key_undir_config (clear_key_undir g i j key undir)
                   i j key undir) as [-> _].
  - by rewrite !nr_clear_key_undir.
  - intros a b k.
    rewrite (entry_clear_key_undir (clear_key_undir g i j key undir)).
    rewrite !entry_clear_key_undir.
    destruct (entry (data g) i j key) as [[o m]|] eqn:He; [|done].
    destruct undir; cbn [fst negb].
    { rewrite decide_True by auto. done. }
    destruct o; cbn [fst negb]; [|done].
    destruct (entry (data g) j i key) as [[[|] m']|] eqn:He'.
    + rewrite decide_True by done. cbn [fst negb]. done.
    + rewrite decide_True by auto. done.
    + rewrite decide_True by auto. done.
Qed.

(* ------------------------------------------------------------------ *)
(** *** The directed clear *)

(** X25. On every graph and for two different vertices joined in both
    directions under [key], [clear_dir(i,j,key)] keeps the relationship
    from [j] to [i] with its value and turns the entry at [(i,j,key)] into
    its mirror: [get(j,i,key)] is unchanged, [get(i,j,key)] is
    [-1 * get(j,i,key)], and [contains_dir(i,j,key)] no longer holds. *)
Theorem clear_dir_of_two_way (g : Graph) (i j : Z) (key : string) :
  i ≠ j →
  contains_dir_key g i j key = true →
  contains_dir_key g j i key = true →
  get (clear_dir_key g i j key) j i key = get g j i key ∧
  get (clear_dir_key g i j key) i j key = F32.neg1_mul (get g j i key) ∧
  contains_dir_key (clear_dir_key g i j key) i j key = false ∧
  contains_undir_key (clear_dir_key g i j key) i j key = true ∧
  contains_dir_key (clear_dir_key g i j key) j i key = true.
Proof.
  intros Hij [m Hm]%contains_dir_key_true [m' Hm']%contains_dir_key_true.
  assert (entry (data (clear_dir_key g i j key)) i j key = Some (false, m'))
    as E1.
  { unfold clear_dir_key. rewrite entry_clear_key_undir, Hm, Hm'.
    cbn [fst negb]. by rewrite decide_True. }
  assert (entry (data (clear_dir_key g i j key)) j i key = Some (true, m'))
    as E2.
  { unfold clear_dir_key. rewrite entry_clear_key_undir, Hm, Hm'.
    cbn [fst negb]. by rewrite decide_False by (intros (? & _); done). }
  unfold contains_dir_key, contains_undir_key.
  rewrite !contains_key_entry, !get_entry, E1, E2, Hm'. done.
Qed.

Lemma clear_dir_of_two_way_witness :
  (1 ≠ 2 ∧ contains_dir_key two_way 1 2 "w" = true ∧
   contains_dir_key two_way 2 1 "w" = true) ∧
  get (clear_dir_key two_way 1 2 "w") 2 1 "w" = get two_way 2 1 "w" ∧
  get (clear_dir_key two_way 1 2 "w") 1 2 "w"
    = F32.neg1_mul (get two_way 2 1 "w") ∧
  contains_dir_key (clear_dir_key two_way 1 2 "w") 1 2 "w" = false ∧
  contains_undir_key (clear_dir_key two_way 1 2 "w") 1 2 "w" = true ∧
  contains_dir_key (clear_dir_key two_way 1 2 "w") 2 1 "w" = true.
Proof.
  split; [repeat split; (lia || (vm_compute; reflexivity))|].
  apply (clear_dir_of_two_way two_way 1 2 "w");
    [lia | vm_compute; reflexivity | vm_compute; reflexivity].
Defined.

(** X26. On a built graph, [clear_dir(i,j,key)] where no relationship runs
    from [i] to [j] under [key] returns the graph as it is, also when one
    runs from [j] to [i]. *)
Theorem built_clear_dir_of_opposite
    (dir : bool) (x : float) (ops : list Op) (i j : Z) (key : string) :
  contains_dir_key (built dir x ops) i j key = false →
  clear_dir_key (built dir x ops) i j key = built dir x ops.
Proof.
  intros Hc. pose proof (no_empty_built dir x ops) as Hne.
  set (g := built dir x ops) in *.
  apply Graph_entry_ext.
  - by apply no_empty_clear_key_undir.
  - done.
  - unfold clear_dir_key.
    by destruct (clear_key_undir_config g i j key false) as [-> _].
  - unfold clear_dir_key. by rewrite nr_clear_key_undir.
  - intros a b k. unfold clear_dir_key. rewrite entry_clear_key_undir.
    destruct (entry (data g) i j key) as [[o m]|] eqn:He; [|done].
    destruct o; [|done]. exfalso.
    assert (contains_dir_key g i j key = true) as H
      by (apply contains_dir_key_true; eauto). congruence.
Qed.

Lemma built_clear_dir_of_opposite_witness :
  contains_dir_key
    (built true (F32.of_Z 0) [OSetDir 1 2 "w" (F32.of_Z 5)]) 2 1 "w" = false ∧
  clear_dir_key (built true (F32.of_Z 0) [OSetDir 1 2 "w" (F32.of_Z 5)]) 2 1 "w"
    = built true (F32.of_Z 0) [OSetDir 1 2 "w" (F32.of_Z 5)].
Proof.
  split; [vm_compute; reflexivity|].
  apply (built_clear_dir_of_opposite true (F32.of_Z 0)
           [OSetDir 1 2 "w" (F32.of_Z 5)] 2 1 "w"). vm_compute; reflexivity.
Defined.
